(** * MCP Teams Connector: availability resolver and token lifecycle

    A shallow embedding of the parts of the connector that carry behaviour
    of their own:

    - [Calendar]: [CalendarTools.findMeetingSlots] and
      [CalendarTools.isTimeFree], the search for meeting slots over the
      free/busy data returned by the calendar service;
    - [Auth]: [GraphAuthProvider], the token cache plugin, the interactive
      login over the local redirect listener and the tenant / user checks;
    - [Server]: [MCPTeamsServer.start], the start-up sequence that gates the
      tools on the two checks, [stop] and the handler of tool calls;
    - [Teams]: [TeamsTools.sendTeamsMessage] with the chat and channel sends
      and [findOrCreateChat], over a Graph client that records its requests;
    - [CalendarService]: [CalendarTools.findAvailability], the caller of the
      search.

    The dates that the program is given are represented by their time
    value, an integer number of milliseconds since the epoch; the dates that
    it builds with [new Date(value)] are valid only within the range of
    [Date] and invalid beyond it.  Durations are integers. *)

From Stdlib Require Import ZArith List Bool String Ascii Lia.
From Stdlib Require Import Sorting.Sorted Sorting.Permutation.
From Stdlib Require Import Recdef FunInd.
Import ListNotations.

Local Open Scope Z_scope.

(** ** JavaScript values, as far as truthiness goes *)

Inductive JsValue : Type :=
| JsUndefined
| JsNull
| JsBool (b : bool)
| JsNaN
| JsNumber (n : Z)
| JsString (s : string)
| JsObject.

(** [!v] is [negb (truthy v)]. *)
Definition truthy (v : JsValue) : bool :=
  match v with
  | JsUndefined | JsNull | JsNaN => false
  | JsBool b => b
  | JsNumber n => negb (n =? 0)
  | JsString s => negb (String.eqb s EmptyString)
  | JsObject => true
  end.

Module Calendar.

(** Time value of a [Date], in milliseconds since 1970-01-01T00:00Z. *)
Definition Date := Z.

(** The largest time value of a [Date]: 100,000,000 days. *)
Definition maxTime : Z := 8640000000000000.

(** A [Date] object: valid with its time value, or an Invalid Date. *)
Inductive JsDate : Type :=
| ValidDate (t : Date)
| InvalidDate.

(** One entry of [schedule.busyTimes], after [new Date(busyTime.start.dateTime)]
    and [new Date(busyTime.end.dateTime)]: a string that does not parse gives
    an Invalid Date. *)
Record BusyTime : Type := mkBusyTime {
  busyStart : JsDate;
  busyEnd : JsDate
}.

(** One element of [response.value].  [busyTimes = None] is a schedule
    object without that property. *)
Record Schedule : Type := mkSchedule {
  freeBusyViewInfo : JsValue;
  busyTimes : option (list BusyTime)
}.

(** [new Date(value)] on a number: beyond the range the date is invalid. *)
Definition newDate (value : Z) : JsDate :=
  if (- maxTime <=? value) && (value <=? maxTime) then ValidDate value
  else InvalidDate.

(** Where a date is expected, a time value stands for the date that
    [new Date] makes of it. *)
Coercion newDate : Z >-> JsDate.

(** [a > b] on dates, [b] valid: a comparison with an Invalid Date is
    false. *)
Definition dateGtb (a : JsDate) (b : Date) : bool :=
  match a with
  | ValidDate t => t >? b
  | InvalidDate => false
  end.

(** [a < b] on dates, [a] valid. *)
Definition dateLtb (a : Date) (b : JsDate) : bool :=
  match b with
  | ValidDate t => a <? t
  | InvalidDate => false
  end.

(** [a > b] on dates, either of which can be invalid. *)
Definition laterThan (a b : JsDate) : bool :=
  match b with
  | ValidDate t => dateGtb a t
  | InvalidDate => false
  end.

(** An element of the [slots] array.  [end] is a keyword, hence [end_]. *)
Record Slot : Type := mkSlot {
  start : Date;
  end_ : JsDate;
  availableAttendees : Z
}.

Definition msPerMinute : Z := 60 * 1000.
Definition msPerHour : Z := 60 * msPerMinute.
Definition msPerDay : Z := 24 * msPerHour.

(** [Math.ceil(n / 2)] on an integer [n]: the ceiling is minus the floor of
    the opposite. *)
Definition ceilHalf (n : Z) : Z := - ((- n) / 2).

(** The comparator given to [Array.prototype.sort]. *)
Definition compareSlots (a b : Slot) : Z :=
  if negb (availableAttendees b =? availableAttendees a)
  then availableAttendees b - availableAttendees a
  else start a - start b.

(** [Array.prototype.sort] is stable and, for a consistent comparator, puts
    [a] before [b] whenever [cmp a b < 0] and keeps their order when
    [cmp a b = 0]; a stable insertion sort has the same result. *)
Fixpoint insertBy {A : Type} (cmp : A -> A -> Z) (x : A) (l : list A) : list A :=
  match l with
  | [] => [x]
  | y :: r => if cmp x y <=? 0 then x :: y :: r else y :: insertBy cmp x r
  end.

Definition sortBy {A : Type} (cmp : A -> A -> Z) (l : list A) : list A :=
  fold_right (insertBy cmp) [] l.

(** [arr.slice(0, n)] *)
Definition slice0 {A : Type} (n : nat) (l : list A) : list A := firstn n l.

Section Resolver.

(** [Date.prototype.getTimezoneOffset()] of the host, in minutes (UTC minus
    local time), taken as constant over the search window. *)
Variable timezoneOffset : Z.

Definition localTime (t : Date) : Z := t - timezoneOffset * msPerMinute.

(** [Date.prototype.getHours()] *)
Definition getHours (t : Date) : Z := (localTime t / msPerHour) mod 24.

(** [Date.prototype.getDay()]: 0 is Sunday, 6 is Saturday; the epoch was a
    Thursday. *)
Definition getDay (t : Date) : Z := (localTime t / msPerDay + 4) mod 7.

(** [timeSlot.setMinutes(timeSlot.getMinutes() + 30)] *)
Definition nextTick (t : Date) : Date := t + 30 * msPerMinute.

(** The [for ... of] loop of [isTimeFree], with its early [return false]. *)
Fixpoint noConflict (startTime : Date) (endTime : JsDate) (busy : list BusyTime)
    : bool :=
  match busy with
  | [] => true
  | busyTime :: rest =>
      if dateLtb startTime (busyEnd busyTime) && laterThan endTime (busyStart busyTime)
      then false
      else noConflict startTime endTime rest
  end.

Definition isTimeFree (schedule : Schedule) (startTime : Date) (duration : Z) : bool :=
  if negb (truthy (freeBusyViewInfo schedule)) then true
  else
    let endTime := newDate (startTime + duration * 60 * 1000) in
    noConflict startTime endTime
      (match busyTimes schedule with Some l => l | None => [] end).

(** The [for] loop over [schedules], threading [availableCount]. *)
Fixpoint countAvailable (schedules : list Schedule) (timeSlot : Date)
    (duration : Z) (availableCount : Z) : Z :=
  match schedules with
  | [] => availableCount
  | schedule :: rest =>
      countAvailable rest timeSlot duration
        (if isTimeFree schedule timeSlot duration
         then availableCount + 1 else availableCount)
  end.

(** Number of 30-minute ticks of the loop still below [endDate]. *)
Definition ticksLeft (endDate timeSlot : Date) : nat :=
  Z.to_nat ((endDate - timeSlot + (30 * msPerMinute - 1)) / (30 * msPerMinute)).

Lemma ticksLeft_nextTick (endDate timeSlot : Z) :
  timeSlot < endDate ->
  (ticksLeft endDate (nextTick timeSlot) < ticksLeft endDate timeSlot)%nat.
Proof.
  intros H. unfold ticksLeft, nextTick, msPerMinute.
  change (30 * (60 * 1000)) with 1800000. change (1800000 - 1) with 1799999.
  replace (endDate - (timeSlot + 1800000) + 1799999)
    with (endDate - timeSlot + 1799999 + (-1) * 1800000) by lia.
  rewrite Z.div_add by lia.
  assert (1 <= (endDate - timeSlot + 1799999) / 1800000).
  { apply Z.div_le_lower_bound; lia. }
  lia.
Defined.

Variable schedules : list Schedule.
Variable duration : Z.
Variable endDate : Date.
Variable attendees : list string.

(** The [while (timeSlot < endDate)] loop; the result lists the slots in the
    order in which they are pushed. *)
Function collectSlots (timeSlot : Date) {measure (ticksLeft endDate) timeSlot}
    : list Slot :=
  if timeSlot <? endDate then
    let slotEnd := newDate (timeSlot + duration * 60 * 1000) in
    if dateGtb slotEnd endDate then []
    else
      let hour := getHours timeSlot in
      if (hour <? 9) || (hour >=? 17) then collectSlots (nextTick timeSlot)
      else
        let dayOfWeek := getDay timeSlot in
        if (dayOfWeek =? 0) || (dayOfWeek =? 6) then collectSlots (nextTick timeSlot)
        else
          let availableCount := countAvailable schedules timeSlot duration 0 in
          if availableCount >=? ceilHalf (Z.of_nat (List.length attendees))
          then mkSlot timeSlot slotEnd availableCount :: collectSlots (nextTick timeSlot)
          else collectSlots (nextTick timeSlot)
  else [].
Proof.
  all: intros; apply ticksLeft_nextTick; now apply Z.ltb_lt.
Defined.

End Resolver.

(** [startDate] and [endDate] are valid dates here; the caller's Invalid
    Dates are in [CalendarService.findMeetingSlotsBetween]. *)
Definition findMeetingSlots (timezoneOffset : Z) (schedules : list Schedule)
    (duration : Z) (startDate endDate : Date) (attendees : list string)
    : list Slot :=
  let slots := collectSlots timezoneOffset schedules duration endDate attendees startDate in
  slice0 10 (sortBy compareSlots slots).


(** ** Vocabulary of the statements *)

(** The [k]-th tick of the loop started at [startDate]. *)
Definition tick (startDate : Date) (k : Z) : Date := startDate + k * (30 * msPerMinute).

(** A tick passes the structural filters: it lies in the window together
    with the end of its slot, in business hours, on a weekday. *)
Definition structurallyValid (tz duration : Z) (endDate t : Date) : Prop :=
  t < endDate /\ t + duration * 60 * 1000 <= endDate /\
  9 <= getHours tz t < 17 /\ getDay tz t <> 0 /\ getDay tz t <> 6.

(** The slot the loop builds at tick [t]. *)
Definition slotAt (schedules : list Schedule) (duration : Z) (t : Date) : Slot :=
  mkSlot t (t + duration * 60 * 1000) (countAvailable schedules t duration 0).

(** The loop does not break at [t]: the end of the slot is not a date after
    the end of the window. *)
Definition withinWindow (duration : Z) (endDate t : Date) : Prop :=
  dateGtb (t + duration * 60 * 1000) endDate = false.

(** The loop gets to the [k]-th tick and past its test of the window end:
    the tick is before the end of the window and the loop has not broken at
    it or at a tick before. *)
Definition reachesTick (duration : Z) (startDate endDate : Date) (k : Z) : Prop :=
  tick startDate k < endDate /\
  forall j, 0 <= j <= k -> withinWindow duration endDate (tick startDate j).

(** The tick is in business hours on a weekday. *)
Definition businessTick (tz : Z) (t : Date) : Prop :=
  9 <= getHours tz t < 17 /\ getDay tz t <> 0 /\ getDay tz t <> 6.

(** [a] is ranked no later than [b]: more available attendees, or as many
    and a start that is not later. *)
Definition rankedBefore (a b : Slot) : Prop :=
  availableAttendees a > availableAttendees b \/
  (availableAttendees a = availableAttendees b /\ start a <= start b).

(** A schedule object that carries no data: no (or a falsy)
    [freeBusyViewInfo], or no (or an empty) [busyTimes]. *)
Definition noScheduleData (s : Schedule) : bool :=
  negb (truthy (freeBusyViewInfo s)) ||
  match busyTimes s with
  | None | Some [] => true
  | Some (_ :: _) => false
  end.

End Calendar.

(** ** Calls that can throw, over a mutable state *)

(** The outcome of a call: a value, or a thrown error with its message. *)
Inductive result (A : Type) : Type :=
| Ok (a : A)
| Throw (e : string).
Arguments Ok {A} a.
Arguments Throw {A} e.

(** A method over a state [S].  A throw keeps the state reached so far, as
    assignments made before a JavaScript exception stay made. *)
Definition M (S A : Type) : Type := S -> result A * S.

Definition ret {S A : Type} (a : A) : M S A := fun s => (Ok a, s).

Definition bind {S A B : Type} (m : M S A) (k : A -> M S B) : M S B :=
  fun s =>
    match m s with
    | (Ok a, s') => k a s'
    | (Throw e, s') => (Throw e, s')
    end.

Definition throw {S A : Type} (e : string) : M S A := fun s => (Throw e, s).

(** [try { body } catch (error) { handler(error) }] *)
Definition tryCatch {S A : Type} (body : M S A) (handler : string -> M S A) : M S A :=
  fun s =>
    match body s with
    | (Ok a, s') => (Ok a, s')
    | (Throw e, s') => handler e s'
    end.

Definition gets {S A : Type} (f : S -> A) : M S A := fun s => (Ok (f s), s).
Definition modify {S : Type} (f : S -> S) : M S unit := fun s => (Ok tt, f s).

(** The value a call is given by the outside (a library, the file system). *)
Definition external {S A : Type} (r : result A) : M S A := fun s => (r, s).

Declare Scope js_scope.
Delimit Scope js_scope with js.
Notation "x <- m ;; k" := (bind m (fun x => k))
  (at level 61, m at next level, right associativity) : js_scope.
Notation "m ;; k" := (bind m (fun _ => k))
  (at level 61, right associativity) : js_scope.

(** [s.endsWith(suffix)] *)
Definition endsWith (s suffix : string) : bool :=
  let n := String.length s in
  let m := String.length suffix in
  if (m <=? n)%nat then String.eqb (substring (n - m) m s) suffix else false.

Module Auth.

Local Open Scope string_scope.
Local Open Scope js_scope.

(** The fields of MSAL's [AccountInfo] that the provider reads. *)
Record AccountInfo : Type := mkAccount {
  homeAccountId : string;
  username : string;
  tenantId : string
}.

(** *** The token cache plugin *)

(** The cache directory and the cache file in it. *)
Record Disk : Type := mkDisk {
  cacheDirExists : bool;
  cacheFile : option string
}.

(** What the file system does at a call besides what the disk holds: an
    input/output fault makes the call throw. *)
Record IoFaults : Type := mkIoFaults {
  readFault : bool;
  mkdirFault : bool;
  writeFault : bool
}.

Section CachePlugin.

(** MSAL's in-memory token cache with its two serialization methods. *)
Variable Cache : Type.
Variable deserialize : Cache -> string -> result Cache.
Variable serialize : Cache -> result string.

(** [cacheContext] together with the disk and the console. *)
Record PluginState : Type := mkPluginState {
  tokenCache : Cache;
  hasChanged : bool;
  disk : Disk;
  pluginConsole : list string
}.

(** The state after [console.log(line)]. *)
Definition withLine (line : string) (st : PluginState) : PluginState :=
  mkPluginState (tokenCache st) (hasChanged st) (disk st) (pluginConsole st ++ [line]).

Definition pluginLog (line : string) : M PluginState unit := modify (withLine line).

(** [fs.readFile(TOKEN_CACHE_FILE, 'utf-8')] *)
Definition readFile (io : IoFaults) : M PluginState string :=
  fun st =>
    if readFault io then (Throw "EIO", st)
    else match cacheFile (disk st) with
         | Some data => (Ok data, st)
         | None => (Throw "ENOENT", st)
         end.

(** [fs.mkdir(CACHE_DIR, { recursive: true })] *)
Definition mkdir (io : IoFaults) : M PluginState unit :=
  fun st =>
    if mkdirFault io then (Throw "EACCES", st)
    else (Ok tt, mkPluginState (tokenCache st) (hasChanged st)
                   (mkDisk true (cacheFile (disk st))) (pluginConsole st)).

(** [fs.writeFile(TOKEN_CACHE_FILE, data)] *)
Definition writeFile (io : IoFaults) (data : string) : M PluginState unit :=
  fun st =>
    if writeFault io || negb (cacheDirExists (disk st)) then (Throw "EIO", st)
    else (Ok tt, mkPluginState (tokenCache st) (hasChanged st)
                   (mkDisk true (Some data)) (pluginConsole st)).

(** [cacheContext.tokenCache.deserialize(data)] *)
Definition tokenCacheDeserialize (data : string) : M PluginState unit :=
  fun st =>
    match deserialize (tokenCache st) data with
    | Ok c => (Ok tt, mkPluginState c (hasChanged st) (disk st) (pluginConsole st))
    | Throw e => (Throw e, st)
    end.

(** [cacheContext.tokenCache.serialize()] *)
Definition tokenCacheSerialize : M PluginState string :=
  fun st => (serialize (tokenCache st), st).

Definition beforeCacheAccess (io : IoFaults) : M PluginState unit :=
  tryCatch
    (data <- readFile io ;;
     tokenCacheDeserialize data)
    (fun _ => pluginLog "No existing token cache found, will create new one").

Definition afterCacheAccess (io : IoFaults) : M PluginState unit :=
  changed <- gets hasChanged ;;
  if (changed : bool) then
    tryCatch
      (mkdir io ;;
       data <- tokenCacheSerialize ;;
       writeFile io data ;;
       pluginLog "Token cache updated")
      (fun error => pluginLog ("Failed to write token cache: " ++ error))
  else ret tt.

End CachePlugin.

(** *** The provider and the process around it *)

(** A page sent on the redirect request. *)
Inductive Page : Type :=
| PageNoCode
| PageSuccess (welcome : option string)
| PageFailure (message : string).

(** The state the provider and the server act on: the two fields of
    [GraphAuthProvider], the listener on port 3000 with the pages it has
    sent, the tools of [MCPTeamsServer], the console, and the exit status
    once [process.exit] has been called. *)
Record World : Type := mkWorld {
  currentAccount : option AccountInfo;
  graphClient : bool;
  listening : bool;
  pages : list Page;
  calendarTools : bool;
  teamsTools : bool;
  connected : bool;
  console : list string;
  exitCode : option Z
}.

Definition initialWorld : World :=
  mkWorld None false false [] false false false [] None.

Definition setCurrentAccount (a : option AccountInfo) (w : World) : World :=
  mkWorld a (graphClient w) (listening w) (pages w) (calendarTools w)
    (teamsTools w) (connected w) (console w) (exitCode w).

Definition setGraphClient (b : bool) (w : World) : World :=
  mkWorld (currentAccount w) b (listening w) (pages w) (calendarTools w)
    (teamsTools w) (connected w) (console w) (exitCode w).

Definition setListening (b : bool) (w : World) : World :=
  mkWorld (currentAccount w) (graphClient w) b (pages w) (calendarTools w)
    (teamsTools w) (connected w) (console w) (exitCode w).

Definition send (p : Page) (w : World) : World :=
  mkWorld (currentAccount w) (graphClient w) (listening w) (pages w ++ [p])
    (calendarTools w) (teamsTools w) (connected w) (console w) (exitCode w).

Definition setTools (w : World) : World :=
  mkWorld (currentAccount w) (graphClient w) (listening w) (pages w) true true
    (connected w) (console w) (exitCode w).

Definition setConnected (w : World) : World :=
  mkWorld (currentAccount w) (graphClient w) (listening w) (pages w)
    (calendarTools w) (teamsTools w) true (console w) (exitCode w).

Definition logLine (line : string) (w : World) : World :=
  mkWorld (currentAccount w) (graphClient w) (listening w) (pages w)
    (calendarTools w) (teamsTools w) (connected w) (console w ++ [line]) (exitCode w).

Definition exit (code : Z) (w : World) : World :=
  mkWorld (currentAccount w) (graphClient w) (listening w) (pages w)
    (calendarTools w) (teamsTools w) (connected w) (console w) (Some code).

Definition log (line : string) : M World unit := modify (logLine line).

(** Reading a property of [this.currentAccount]; on [null] it is a
    [TypeError]. *)
Definition accountProperty {A : Type} (f : AccountInfo -> A) : M World A :=
  fun w =>
    match currentAccount w with
    | Some a => (Ok (f a), w)
    | None => (Throw "TypeError: Cannot read properties of null", w)
    end.

Definition expectedTenantId : string := "6b104499-c49f-45dc-b3a2-df95efd6eeb4".
Definition requiredDomain : string := "@timelarp.com".

Definition isNull {A : Type} (o : option A) : bool :=
  match o with None => true | Some _ => false end.

Definition validateTenant : M World bool :=
  account <- gets currentAccount ;;
  if isNull account then
    log "No account available for tenant validation" ;;
    ret false
  else
    tenant <- accountProperty tenantId ;;
    if negb (String.eqb tenant expectedTenantId) then
      log ("Invalid tenant. Expected: " ++ expectedTenantId ++ ", Got: " ++ tenant) ;;
      ret false
    else
      log ("Tenant validation successful: " ++ tenant) ;;
      ret true.

Definition validateUser : M World bool :=
  account <- gets currentAccount ;;
  if isNull account then
    log "No account available for user validation" ;;
    ret false
  else
    name <- accountProperty username ;;
    if negb (endsWith name requiredDomain) then
      log ("Invalid user domain. Expected @timelarp.com, Got: " ++ name) ;;
      ret false
    else
      log ("User validation successful: " ++ name) ;;
      ret true.

Definition getCurrentUser : M World (option AccountInfo) := gets currentAccount.

(** [msalResult] is the answer of [msalClient.acquireTokenSilent]. *)
Definition acquireTokenSilent (msalResult : result string) : M World string :=
  account <- gets currentAccount ;;
  if isNull account then throw "No account available for silent token acquisition"
  else external msalResult.

Definition getGraphClient : M World unit :=
  client <- gets graphClient ;;
  if negb client then modify (setGraphClient true) else ret tt.

(** [keytarResult] and [unlinkResult] are the answers of
    [keytar.deletePassword] and [fs.unlink]. *)
Definition signOut (keytarResult unlinkResult : result unit) : M World unit :=
  account <- gets currentAccount ;;
  if isNull account then ret tt
  else
    tryCatch
      (accountProperty username ;; external keytarResult)
      (fun error => log ("Failed to remove refresh token from keychain: " ++ error)) ;;
    tryCatch
      (external unlinkResult)
      (fun error => log ("Failed to remove token cache file: " ++ error)) ;;
    modify (setCurrentAccount None) ;;
    modify (setGraphClient false) ;;
    log "Sign out completed".

(** *** The interactive login *)

(** The promise that [interactiveLogin] returns. *)
Inductive Promise : Type :=
| Pending
| Resolved
| Rejected (reason : string).

(** A login in progress: the state it acts on and its promise. *)
Record Login : Type := mkLogin {
  world : World;
  promise : Promise
}.

(** What the event loop can run while the login is awaited: the callback of
    [app.listen], with the answers of [getAuthCodeUrl] and [open]; a request
    on [/redirect], with its [code] query parameter and the answer that
    [acquireTokenByCode] gives if it is called; the timer of five minutes. *)
Inductive Event : Type :=
| ListenReady (authUrl : result string) (opened : result unit)
| Redirect (code : option string) (exchange : result (option AccountInfo))
| TimerFired.

Definition inWorld (f : World -> World) : M Login unit :=
  modify (fun l => mkLogin (f (world l)) (promise l)).

(** [resolve()] and [reject(error)] settle a pending promise and do nothing
    to a settled one. *)
Definition settle (p : Promise) : M Login unit :=
  modify (fun l =>
    match promise l with
    | Pending => mkLogin (world l) p
    | _ => l
    end).

Definition resolve : M Login unit := settle Resolved.
Definition reject (error : string) : M Login unit := settle (Rejected error).

(** [server.close()] *)
Definition serverClose : M Login unit := inWorld (setListening false).

(** [!code] for the query parameter. *)
Definition noCode (code : option string) : bool :=
  match code with
  | None => true
  | Some c => String.eqb c EmptyString
  end.

Definition onRedirect (code : option string)
    (exchange : result (option AccountInfo)) : M Login unit :=
  if noCode code then
    inWorld (send PageNoCode) ;;
    reject "No authorization code received"
  else
    tryCatch
      (account <- external exchange ;;
       inWorld (setCurrentAccount account) ;;
       inWorld (logLine "Authentication tokens cached successfully") ;;
       inWorld (send (PageSuccess (option_map username account))) ;;
       serverClose ;;
       inWorld (logLine "Interactive authentication completed successfully") ;;
       resolve)
      (fun error =>
         inWorld (logLine ("Authentication error: " ++ error)) ;;
         inWorld (send (PageFailure error)) ;;
         reject error).

Definition onListenReady (authUrl : result string) (opened : result unit)
    : M Login unit :=
  tryCatch
    (url <- external authUrl ;;
     inWorld (logLine "Opening browser for authentication...") ;;
     inWorld (logLine ("If browser doesn't open automatically, visit: " ++ url)) ;;
     external opened)
    (fun error =>
       inWorld (logLine ("Failed to initiate authentication: " ++ error)) ;;
       reject error).

Definition timeoutMessage : string :=
  "Authentication timeout - no response received within 5 minutes".

Definition onTimer : M Login unit :=
  serverClose ;;
  reject timeoutMessage.

(** One turn of the event loop for a login whose server has bound the port.
    A request reaches the handler only while the server listens. *)
Definition handle (e : Event) (l : Login) : Login :=
  match e with
  | ListenReady authUrl opened => snd (onListenReady authUrl opened l)
  | Redirect code exchange =>
      if listening (world l) then snd (onRedirect code exchange l) else l
  | TimerFired => snd (onTimer l)
  end.

(** The caller awaits the promise: events run until it is settled. *)
Fixpoint await (events : list Event) (l : Login) : Login :=
  match events with
  | [] => l
  | e :: rest =>
      match promise l with
      | Pending => await rest (handle e l)
      | _ => l
      end
  end.

(** One turn of the event loop for a login that was started while the server
    of an earlier login still held port 3000, so that [app.listen] did not
    bind.  A request on [/redirect] is then served by the handler of the
    earlier login as long as its server listens: it does to the provider, the
    console and its own server what [onRedirect] does, but the promise that
    it resolves or rejects is the earlier one, which is settled already; the
    promise of this login is left as it is.  The callback of [app.listen],
    when it runs, and the timer do what they do otherwise; the timer of the
    earlier login was set before the timer of this one, so that when this one
    fires the earlier one has fired and has closed the earlier server. *)
Definition handleUnbound (e : Event) (l : Login) : Login :=
  match e with
  | Redirect _ _ => mkLogin (world (handle e l)) (promise l)
  | ListenReady _ _ | TimerFired => handle e l
  end.

Fixpoint awaitUnbound (events : list Event) (l : Login) : Login :=
  match events with
  | [] => l
  | e :: rest =>
      match promise l with
      | Pending => awaitUnbound rest (handleUnbound e l)
      | _ => l
      end
  end.

(** The login from [app.listen] until the events have run or the promise is
    settled.  The server binds port 3000 unless it is still held. *)
Definition awaitLogin (events : list Event) (w : World) : Login :=
  if listening w then awaitUnbound events (mkLogin w Pending)
  else await events (mkLogin (setListening true w) Pending).

(** [events] is what happens before the timer fires, which it does after
    five minutes: if the promise is still pending then, the timer rejects
    it. *)
Definition interactiveLogin (events : list Event) : M World unit :=
  fun w =>
    let l := awaitLogin events w in
    match promise l with
    | Resolved => (Ok tt, world l)
    | Rejected error => (Throw error, world l)
    | Pending => (Throw timeoutMessage, world (snd (onTimer l)))
    end.

(** [accounts] is the answer of [msalClient.getAllAccounts()], [silent] that
    of [msalClient.acquireTokenSilent]. *)
Definition authenticate (accounts : list AccountInfo) (silent : result string)
    (events : list Event) : M World unit :=
  done <-
    match accounts with
    | account :: _ =>
        modify (setCurrentAccount (Some account)) ;;
        log ("Using cached credentials for: " ++ username account) ;;
        tryCatch
          (acquireTokenSilent silent ;;
           log "Successfully authenticated using cached credentials" ;;
           ret true)
          (fun _ =>
             log "Silent token acquisition failed, initiating interactive login..." ;;
             ret false)
    | [] => ret false
    end ;;
  if (done : bool) then ret tt else interactiveLogin events.

(** *** Vocabulary of the statements *)

(** The account passes both admission checks. *)
Definition admitted (a : AccountInfo) : bool :=
  String.eqb (tenantId a) expectedTenantId && endsWith (username a) requiredDomain.

(** Every Session held passes the admission checks. *)
Definition sessionAdmitted (w : World) : Prop :=
  forall a, currentAccount w = Some a -> admitted a = true.

(** The part of the state that belongs to the server around the provider. *)
Definition serverPart (w : World) : bool * bool * bool * option Z :=
  (calendarTools w, teamsTools w, connected w, exitCode w).

(** A call on the provider, with what the outside answers to it. *)
Inductive Call : Type :=
| CallAuthenticate (accounts : list AccountInfo) (silent : result string)
    (events : list Event)
| CallValidateTenant
| CallValidateUser
| CallGetGraphClient
| CallGetCurrentUser
| CallSignOut (keytarResult unlinkResult : result unit).

Definition perform (w : World) (c : Call) : World :=
  match c with
  | CallAuthenticate accounts silent events => snd (authenticate accounts silent events w)
  | CallValidateTenant => snd (validateTenant w)
  | CallValidateUser => snd (validateUser w)
  | CallGetGraphClient => snd (getGraphClient w)
  | CallGetCurrentUser => snd (getCurrentUser w)
  | CallSignOut k u => snd (signOut k u w)
  end.

(** The states of the provider after any sequence of calls. *)
Definition reachable (w : World) : Prop :=
  exists calls, w = fold_left perform calls initialWorld.

(** *** The event loop after the caller has resumed *)

(** All the events of a trace, also those that come after the promise has
    been settled: the handlers stay registered and the timer stays armed. *)
Definition runAll (events : list Event) (l : Login) : Login :=
  fold_left (fun l e => handle e l) events l.

(** The [authProvider] callback that [getGraphClient] gives to the Graph
    client.  The result is what [done] is called with: [Ok token] for
    [done(null, token)], [Throw error] for [done(error, null)]. *)
Definition authProviderCallback (msalResult : result string) : M World (result string) :=
  tryCatch
    (accessToken <- acquireTokenSilent msalResult ;;
     ret (Ok accessToken))
    (fun error =>
       log ("Failed to acquire access token: " ++ error) ;;
       ret (Throw error)).

End Auth.

(** ** Tool responses *)

(** The object a tool returns: one text item, and [isError] where it is
    set. *)
Record ToolResponse : Type := mkResponse {
  text : string;
  isError : bool
}.

(** [error.message || 'Unknown error'] *)
Definition messageOr (message fallback : string) : string :=
  if String.eqb message EmptyString then fallback else message.

(** The line feed of the template strings. *)
Definition nl : string := String (ascii_of_nat 10) EmptyString.

(** [s.includes(sub)] *)
Fixpoint includes (s sub : string) : bool :=
  String.prefix sub s ||
  match s with
  | EmptyString => false
  | String _ rest => includes rest sub
  end.

Module Server.

Import Auth.
Local Open Scope string_scope.
Local Open Scope js_scope.

Definition guard (ok : bool) (message : string) : M World unit :=
  if negb ok then throw message else ret tt.

(** [MCPTeamsServer.start]; [connectResult] is the answer of
    [server.connect(transport)]. *)
Definition start (accounts : list AccountInfo) (silent : result string)
    (events : list Event) (connectResult : result unit) : M World unit :=
  tryCatch
    (log "MCP Teams Connector starting..." ;;
     log "Authenticating with Microsoft Graph..." ;;
     authenticate accounts silent events ;;
     isValidTenant <- validateTenant ;;
     guard isValidTenant
       "Invalid tenant. This connector is configured for Cypherdyne tenant only." ;;
     isValidUser <- validateUser ;;
     guard isValidUser
       "Invalid user. This connector is configured for @timelarp.com users only." ;;
     getGraphClient ;;
     modify setTools ;;
     log "Authentication successful!" ;;
     user <- getCurrentUser ;;
     log ("Authenticated as: " ++
          match user with Some a => username a | None => "undefined" end) ;;
     external connectResult ;;
     modify setConnected ;;
     log "MCP Teams Connector is running and ready to accept requests...")
    (fun error =>
       log ("Failed to start MCP Teams Connector: " ++ error) ;;
       modify (exit 1)).

(** [MCPTeamsServer.stop] *)
Definition stop (keytarResult unlinkResult : result unit) : M World unit :=
  tryCatch
    (log "Shutting down MCP Teams Connector..." ;;
     signOut keytarResult unlinkResult ;;
     log "MCP Teams Connector stopped.")
    (fun error => log ("Error during shutdown: " ++ error)).

(** What each tool method does when it is called: its response, or the
    error it throws. *)
Record ToolRuns : Type := mkToolRuns {
  runCreateMeeting : result ToolResponse;
  runFindAvailability : result ToolResponse;
  runListUpcomingMeetings : result ToolResponse;
  runSendTeamsMessage : result ToolResponse;
  runListTeams : result ToolResponse
}.

Definition notInitialized : ToolResponse :=
  mkResponse "Server not properly initialized. Please restart the MCP server." true.

Definition unknownTool (name : string) : ToolResponse :=
  mkResponse ("Unknown tool: " ++ name) true.

Definition toolFailure (name error : string) : ToolResponse :=
  mkResponse ("Error executing " ++ name ++ ": " ++ error) true.

(** The handler of [CallToolRequestSchema]. *)
Definition callTool (runs : ToolRuns) (name : string) : M World ToolResponse :=
  calendar <- gets calendarTools ;;
  teams <- gets teamsTools ;;
  if negb calendar || negb teams then ret notInitialized
  else
    tryCatch
      (if String.eqb name "createMeeting" then external (runCreateMeeting runs)
       else if String.eqb name "findAvailability" then external (runFindAvailability runs)
       else if String.eqb name "listUpcomingMeetings"
            then external (runListUpcomingMeetings runs)
       else if String.eqb name "sendTeamsMessage" then external (runSendTeamsMessage runs)
       else if String.eqb name "listTeams" then external (runListTeams runs)
       else ret (unknownTool name))
      (fun error =>
         log ("Error executing tool " ++ name ++ ": " ++ error) ;;
         ret (toolFailure name error)).

(** The names of the tools that the handler of [ListToolsRequestSchema]
    lists, in its order. *)
Definition listedTools : list string :=
  ["createMeeting"; "findAvailability"; "listUpcomingMeetings"; "sendTeamsMessage";
   "listTeams"].

(** The methods behind the listed names, in the same order. *)
Definition runsOf (runs : ToolRuns) : list (result ToolResponse) :=
  [runCreateMeeting runs; runFindAvailability runs; runListUpcomingMeetings runs;
   runSendTeamsMessage runs; runListTeams runs].

End Server.


(** ** The Graph client *)

Module Graph.

Local Open Scope string_scope.

(** The body of a request, as far as the tools build it. *)
Inductive Body : Type :=
| NoBody
| ChatMessage (content : string)
| NewChat (userBind : string)
| ScheduleRequest (schedules : list string) (startTime endTime : string)
    (availabilityViewInterval : Z).

(** A request sent through [graphClient.api(path)]. *)
Record Request : Type := mkRequest {
  method : string;
  path : string;
  body : Body
}.

(** The requests sent so far and the console. *)
Record Client : Type := mkClient {
  requests : list Request;
  clientConsole : list string
}.

Definition clientLog (line : string) : M Client unit :=
  modify (fun c => mkClient (requests c) (clientConsole c ++ [line])).

Definition sendRequest {A : Type} (r : Request) (answer : result A) : M Client A :=
  fun c => (answer, mkClient (requests c ++ [r]) (clientConsole c)).

(** [graphClient.api(path). ... .get()] with the answer of the service. *)
Definition get {A : Type} (path : string) (answer : result A) : M Client A :=
  sendRequest (mkRequest "GET" path NoBody) answer.

(** [graphClient.api(path).post(body)] with the answer of the service. *)
Definition post {A : Type} (path : string) (body : Body) (answer : result A)
    : M Client A :=
  sendRequest (mkRequest "POST" path body) answer.

End Graph.

(** ** The Teams tools *)

Module Teams.

Import Graph.
Local Open Scope string_scope.
Local Open Scope js_scope.

(** The fields that the tools read of a user, of a member of a chat, of a
    chat and of a message that was sent. *)
Record User : Type := mkUser { userId : string }.
Record Member : Type := mkMember { memberUserId : option string }.
Record Chat : Type := mkChat {
  chatId : string;
  members : option (list Member)
}.
Record SentMessage : Type := mkSentMessage { messageId : string }.

(** What the service answers to the four requests of a send. *)
Record Answers : Type := mkAnswers {
  userLookup : result User;
  chatList : result (list Chat);
  chatCreate : result Chat;
  messagePost : result SentMessage
}.

(** [chat.members?.map((m: any) => m.userId) || []] *)
Definition memberIds (chat : Chat) : list (option string) :=
  match members chat with
  | Some ms => map memberUserId ms
  | None => []
  end.

(** [memberIds.includes(id)] *)
Definition idsInclude (ids : list (option string)) (id : string) : bool :=
  existsb (fun m => match m with Some i => String.eqb i id | None => false end) ids.

(** The loop over [chats.value] with its early [return]. *)
Fixpoint existingChat (chats : list Chat) (id : string) : option Chat :=
  match chats with
  | [] => None
  | chat :: rest =>
      if idsInclude (memberIds chat) id then Some chat else existingChat rest id
  end.

(** The user is a member of the chat. *)
Definition isMember (id : string) (chat : Chat) : Prop :=
  exists ms m, members chat = Some ms /\ In m ms /\ memberUserId m = Some id.

Definition userBindOf (id : string) : string :=
  "https://graph.microsoft.com/v1.0/users('" ++ id ++ "')".

Definition findOrCreateChat (a : Answers) (userEmail : string) : M Client Chat :=
  tryCatch
    (user <- get ("/users/" ++ userEmail) (userLookup a) ;;
     chats <- get "/me/chats" (chatList a) ;;
     match existingChat chats (userId user) with
     | Some chat =>
         clientLog ("Found existing chat with " ++ userEmail) ;;
         ret chat
     | None =>
         clientLog ("Creating new chat with " ++ userEmail) ;;
         post "/chats" (NewChat (userBindOf (userId user))) (chatCreate a)
     end)
    (fun error =>
       clientLog ("Failed to find or create chat: " ++ error) ;;
       throw ("Failed to find or create chat with " ++ userEmail ++ ": " ++ error)).

Definition sendChatMessage (a : Answers) (recipient message : string)
    : M Client ToolResponse :=
  tryCatch
    (chat <- findOrCreateChat a recipient ;;
     sentMessage <- post ("/chats/" ++ chatId chat ++ "/messages")
                      (ChatMessage message) (messagePost a) ;;
     ret (mkResponse
            ("Message sent successfully to " ++ recipient ++ nl ++
             "Message ID: " ++ messageId sentMessage) false))
    (fun error =>
       clientLog ("Failed to send chat message: " ++ error) ;;
       throw ("Failed to send chat message: " ++ error)).

Definition sendChannelMessage (a : Answers) (channelPath message : string)
    : M Client ToolResponse :=
  tryCatch
    (sentMessage <- post (channelPath ++ "/messages") (ChatMessage message)
                      (messagePost a) ;;
     ret (mkResponse
            ("Message sent to channel successfully" ++ nl ++
             "Message ID: " ++ messageId sentMessage) false))
    (fun error =>
       clientLog ("Failed to send channel message: " ++ error) ;;
       throw ("Failed to send channel message: " ++ error)).

(** [params.messageType || 'chat'] *)
Definition messageTypeOr (messageType : option string) : string :=
  match messageType with
  | Some t => messageOr t "chat"
  | None => "chat"
  end.

(** [params.messageType === 'channel' || params.recipient.includes('/channels/')] *)
Definition toChannel (recipient : string) (messageType : option string) : bool :=
  match messageType with
  | Some t => String.eqb t "channel"
  | None => false
  end || includes recipient "/channels/".

Definition sendTeamsMessage (a : Answers) (recipient message : string)
    (messageType : option string) : M Client ToolResponse :=
  tryCatch
    (clientLog ("Sending " ++ messageTypeOr messageType ++ " message to: " ++ recipient) ;;
     if toChannel recipient messageType
     then sendChannelMessage a recipient message
     else sendChatMessage a recipient message)
    (fun error =>
       clientLog ("Failed to send Teams message: " ++ error) ;;
       ret (mkResponse ("Failed to send message: " ++ messageOr error "Unknown error")
              true)).

End Teams.

(** ** The availability tool *)

Module CalendarService.

Import Graph Calendar.
Local Open Scope string_scope.
Local Open Scope js_scope.

Section FindAvailability.

(** The host's [new Date(string)], which gives an Invalid Date on a string
    that denotes no date, [Date.prototype.toLocaleString], its
    number-to-string conversion and its time zone. *)
Variable parseDate : string -> JsDate.
Variable toLocaleString : JsDate -> string.
Variable numberToString : Z -> string.
Variable timezoneOffset : Z.

(** [lines.join('\n')] *)
Fixpoint joinLines (lines : list string) : string :=
  match lines with
  | [] => ""
  | [line] => line
  | line :: rest => line ++ nl ++ joinLines rest
  end.

Definition slotLine (attendees : list string) (slot : Slot) : string :=
  "• " ++ toLocaleString (ValidDate (start slot)) ++ " - " ++
  toLocaleString (end_ slot) ++
  " (" ++ numberToString (availableAttendees slot) ++ "/" ++
  numberToString (Z.of_nat (List.length attendees)) ++ " available)".

Definition noAvailabilityText (duration : Z) : string :=
  "No common availability found for all attendees in the specified time range. Consider:"
  ++ nl ++ "- Expanding the date range"
  ++ nl ++ "- Reducing the meeting duration (currently " ++ numberToString duration
  ++ " minutes)"
  ++ nl ++ "- Checking individual attendee schedules".

(** [findMeetingSlots] on the dates of the request.  With an Invalid Date at
    either end of the window the test [timeSlot < endDate] of the loop is
    false at its first pass, and no slot is pushed. *)
Definition findMeetingSlotsBetween (schedules : list Schedule) (duration : Z)
    (startDate endDate : JsDate) (attendees : list string) : list Slot :=
  match startDate, endDate with
  | ValidDate startTime, ValidDate endTime =>
      findMeetingSlots timezoneOffset schedules duration startTime endTime attendees
  | _, _ => []
  end.

(** [scheduleAnswer] is [response.value] of the service, or its error. *)
Definition findAvailability (scheduleAnswer : result (list Schedule))
    (attendees : list string) (startDate endDate : string) (duration : Z)
    : M Client ToolResponse :=
  tryCatch
    (clientLog ("Checking availability for " ++
                numberToString (Z.of_nat (List.length attendees)) ++ " attendees") ;;
     schedules <- post "/me/calendar/getSchedule"
                    (ScheduleRequest attendees startDate endDate 30) scheduleAnswer ;;
     let availableSlots :=
       findMeetingSlotsBetween schedules duration
         (parseDate startDate) (parseDate endDate) attendees in
     let resultText :=
       if (0 <? Z.of_nat (List.length availableSlots))%Z
       then "Found " ++ numberToString (Z.of_nat (List.length availableSlots)) ++
            " available time slots:" ++ nl ++
            joinLines (map (slotLine attendees) availableSlots)
       else noAvailabilityText duration in
     ret (mkResponse resultText false))
    (fun error =>
       clientLog ("Failed to check availability: " ++ error) ;;
       ret (mkResponse ("Failed to check availability: " ++ messageOr error "Unknown error")
              true)).

End FindAvailability.

End CalendarService.

(** ** Sample data *)

Module Samples.

Import Calendar Auth.
Local Open Scope string_scope.

(** Monday 2024-01-08, 09:00 UTC. *)
Definition monday9 : Z := 1704704400000.

(** A schedule object without data, and one that is busy from 09:00 to
    09:30; [mutedBusy] holds the same interval but no [freeBusyViewInfo]. *)
Definition silentSchedule : Schedule := mkSchedule JsUndefined None.
Definition busyAtNine : Schedule :=
  mkSchedule (JsString "2")
    (Some [mkBusyTime (ValidDate monday9) (ValidDate (monday9 + 1800000))]).
Definition mutedBusy : Schedule :=
  mkSchedule JsUndefined
    (Some [mkBusyTime (ValidDate monday9) (ValidDate (monday9 + 1800000))]).

Definition member : AccountInfo :=
  mkAccount "uid-1" "ada@timelarp.com" expectedTenantId.
Definition outsider : AccountInfo :=
  mkAccount "uid-2" "eve@timelarp.com" "11111111-2222-3333-4444-555555555555".

(** A token cache that is its own serialization and refuses an empty blob. *)
Definition blobDeserialize (c data : string) : result string :=
  if String.eqb data "" then Throw "SyntaxError" else Ok data.
Definition blobSerialize (c : string) : result string := Ok c.

(** Three attendees, the first busy from 09:00 to 09:30. *)
Definition threeSchedules : list Schedule :=
  [busyAtNine; silentSchedule; silentSchedule].
Definition threeAttendees : list string := ["a"; "b"; "c"].

(** A provider that holds the Session of [outsider]. *)
Definition outsiderWorld : World := setCurrentAccount (Some outsider) initialWorld.

(** A one-on-one chat with the user [u-ada]. *)
Definition adaChat : Teams.Chat :=
  Teams.mkChat "19:ada" (Some [Teams.mkMember None; Teams.mkMember (Some "u-ada")]).

Definition noFaults : IoFaults := mkIoFaults false false false.
Definition freshPlugin : PluginState string :=
  mkPluginState string "" false (mkDisk false None) [].

End Samples.

(** * Properties *)

Module CalendarFacts.
Import Calendar Samples.

(** ** Facts about the resolver *)

(** Turns the boolean tests recorded along a path of the code into
    propositions. *)
Ltac unbool :=
  repeat match goal with
  | H : (_ || _)%bool = true |- _ => apply orb_true_iff in H; destruct H as [H | H]
  | H : (_ || _)%bool = false |- _ => apply orb_false_iff in H; destruct H as [? H]
  | H : (_ && _)%bool = true |- _ => apply andb_true_iff in H; destruct H as [? H]
  | H : (_ <? _) = true |- _ => apply Z.ltb_lt in H
  | H : (_ <? _) = false |- _ => apply Z.ltb_ge in H
  | H : (_ <=? _) = true |- _ => apply Z.leb_le in H
  | H : (_ <=? _) = false |- _ => apply Z.leb_gt in H
  | H : (_ >? _) = true |- _ => apply Z.gtb_lt in H
  | H : (_ >? _) = false |- _ => rewrite Z.gtb_ltb in H; apply Z.ltb_ge in H
  | H : (_ >=? _) = true |- _ => apply Z.geb_le in H
  | H : (_ >=? _) = false |- _ => rewrite Z.geb_leb in H; apply Z.leb_gt in H
  | H : (_ =? _) = true |- _ => apply Z.eqb_eq in H
  | H : (_ =? _) = false |- _ => apply Z.eqb_neq in H
  end.

Lemma ceilHalf_spec (n : Z) : 2 * ceilHalf n - 1 <= n <= 2 * ceilHalf n.
Proof.
  unfold ceilHalf.
  pose proof (Z.div_mod (- n) 2 ltac:(lia)) as E.
  pose proof (Z.mod_pos_bound (- n) 2 ltac:(lia)) as B.
  lia.
Qed.

Lemma ceilHalf_0 : ceilHalf 0 = 0.
Proof. reflexivity. Qed.

(** *** Dates built by the program *)

(** Linear arithmetic over time values. *)
Ltac timeLia := unfold maxTime, Date in *; lia.

Lemma newDate_valid (v : Z) : - maxTime <= v <= maxTime -> newDate v = ValidDate v.
Proof.
  intros H. unfold newDate.
  destruct (Z.leb_spec (- maxTime) v); destruct (Z.leb_spec v maxTime); simpl;
    reflexivity || (exfalso; timeLia).
Qed.

Lemma newDate_cases (v : Z) :
  (- maxTime <= v <= maxTime /\ newDate v = ValidDate v) \/
  ((v < - maxTime \/ maxTime < v) /\ newDate v = InvalidDate).
Proof.
  unfold newDate.
  destruct (Z.leb_spec (- maxTime) v); destruct (Z.leb_spec v maxTime); simpl;
    [left | right | right | right]; (split; [timeLia | reflexivity]).
Qed.

(** The comparison [new Date(v) > e] holds exactly when [v] is in the range
    of [Date] and greater than [e]. *)
Lemma dateGtb_newDate (v : Z) (e : Date) :
  dateGtb (newDate v) e = true <-> - maxTime <= v <= maxTime /\ e < v.
Proof.
  destruct (newDate_cases v) as [[Hr ->] | [Hr ->]]; simpl.
  - rewrite Z.gtb_ltb, Z.ltb_lt. unfold Date in *. tauto.
  - split; [discriminate | intros [H _]; timeLia].
Qed.

Lemma dateGtb_newDate_le (v : Z) (e : Date) : v <= e -> dateGtb (newDate v) e = false.
Proof.
  intros H. destruct (dateGtb (newDate v) e) eqn:E; [|reflexivity].
  apply dateGtb_newDate in E. timeLia.
Qed.

(** The test of overlap in [isTimeFree] holds of valid dates only. *)
Lemma overlap_iff (startTime : Date) (endTime : JsDate) (b : BusyTime) :
  (dateLtb startTime (busyEnd b) && laterThan endTime (busyStart b))%bool = true <->
  exists busyFrom busyTo e,
    busyStart b = ValidDate busyFrom /\ busyEnd b = ValidDate busyTo /\
    endTime = ValidDate e /\ startTime < busyTo /\ busyFrom < e.
Proof.
  rewrite andb_true_iff.
  destruct b as [[bs|] [be|]]; destruct endTime as [e|]; simpl; split;
    try (intros [H1 H2]; discriminate);
    try (intros (x & y & z & H1 & H2 & H3 & _); discriminate).
  - intros [H1 H2]. exists bs, be, e. unbool. unfold Date in *.
    repeat split; lia.
  - intros (x & y & z & H1 & H2 & H3 & H4 & H5).
    inversion H1; inversion H2; inversion H3; subst.
    split; [apply Z.ltb_lt | apply Z.gtb_lt]; unfold Date in *; lia.
Qed.

(** The busy intervals that [isTimeFree] scans. *)
Lemma noConflict_false_iff (startTime : Date) (endTime : JsDate) (busy : list BusyTime) :
  noConflict startTime endTime busy = false <->
  exists b, In b busy /\
    (dateLtb startTime (busyEnd b) && laterThan endTime (busyStart b))%bool = true.
Proof.
  induction busy as [|b rest IH]; simpl.
  - split; [discriminate | intros (b & [] & _)].
  - destruct (dateLtb startTime (busyEnd b) && laterThan endTime (busyStart b)) eqn:E.
    + split; [intros _ | reflexivity]. exists b. auto.
    + rewrite IH. split.
      * intros (b' & Hin & H). exists b'. auto.
      * intros (b' & [<- | Hin] & H); [congruence | exists b'; auto].
Qed.

(** The counter of the loop over the schedules is the number of schedules
    for which [isTimeFree] answers [true]. *)
Lemma countAvailable_filter (schedules : list Schedule) (t : Date) (d c : Z) :
  countAvailable schedules t d c =
  c + Z.of_nat (List.length (filter (fun s => isTimeFree s t d) schedules)).
Proof.
  revert c. induction schedules as [|s rest IH]; intros c; simpl.
  - lia.
  - rewrite IH. destruct (isTimeFree s t d); simpl List.length; lia.
Qed.

Lemma countAvailable_nonneg (schedules : list Schedule) (t : Date) (d : Z) :
  0 <= countAvailable schedules t d 0.
Proof. rewrite countAvailable_filter. lia. Qed.

Lemma countAvailable_le_length (schedules : list Schedule) (t : Date) (d : Z) :
  countAvailable schedules t d 0 <= Z.of_nat (List.length schedules).
Proof.
  rewrite countAvailable_filter.
  pose proof (filter_length_le (fun s => isTimeFree s t d) schedules). lia.
Qed.

Lemma countAvailable_app (l1 l2 : list Schedule) (t : Date) (d c : Z) :
  countAvailable (l1 ++ l2) t d c = countAvailable l2 t d (countAvailable l1 t d c).
Proof.
  revert c. induction l1 as [|s rest IH]; intros c; simpl; [reflexivity | apply IH].
Qed.

(** *** The ticks of the search and the structural filters *)

Lemma tick_0 (startDate : Date) : tick startDate 0 = startDate.
Proof. unfold tick. lia. Qed.

Lemma tick_next (startDate : Date) (k : Z) :
  tick (nextTick startDate) k = tick startDate (k + 1).
Proof. unfold tick, nextTick. lia. Qed.

Lemma tick_mono (startDate : Date) (k : Z) : 0 <= k -> startDate <= tick startDate k.
Proof. unfold tick, msPerMinute. lia. Qed.

Lemma reachesTick_start (duration : Z) (startDate endDate : Date) (k : Z) :
  0 <= k -> reachesTick duration startDate endDate k ->
  startDate < endDate /\ withinWindow duration endDate startDate.
Proof.
  intros Hk [Hlt Hw]. pose proof (tick_mono startDate k Hk). split.
  - unfold Date in *. lia.
  - rewrite <- (tick_0 startDate). apply Hw. lia.
Qed.

Lemma reachesTick_next (duration : Z) (startDate endDate : Date) (k : Z) :
  0 <= k -> withinWindow duration endDate startDate ->
  reachesTick duration (nextTick startDate) endDate k ->
  reachesTick duration startDate endDate (k + 1).
Proof.
  intros Hk H0 [Hlt Hw]. split.
  - rewrite <- tick_next. exact Hlt.
  - intros j Hj. destruct (Z.eq_dec j 0) as [-> | Hne].
    + rewrite tick_0. exact H0.
    + replace j with (j - 1 + 1) by lia. rewrite <- tick_next. apply Hw. lia.
Qed.

Lemma reachesTick_prev (duration : Z) (startDate endDate : Date) (k : Z) :
  0 < k -> reachesTick duration startDate endDate k ->
  reachesTick duration (nextTick startDate) endDate (k - 1).
Proof.
  intros Hk [Hlt Hw]. split.
  - rewrite tick_next. replace (k - 1 + 1) with k by lia. exact Hlt.
  - intros j Hj. rewrite tick_next. apply Hw. lia.
Qed.

(** A tick that passes the structural filters is one that the loop gets to,
    in business hours on a weekday. *)
Lemma structurallyValid_reaches (tz duration : Z) (startDate endDate : Date) (k : Z) :
  0 <= k -> structurallyValid tz duration endDate (tick startDate k) ->
  reachesTick duration startDate endDate k /\ businessTick tz (tick startDate k).
Proof.
  intros Hk (Hlt & Hle & Hh & Hd0 & Hd6). split; [|split; auto]. split; [exact Hlt|].
  intros j Hj. apply dateGtb_newDate_le.
  unfold tick, msPerMinute, Date in *. nia.
Qed.

Section Collect.

Variables (tz : Z) (schedules : list Schedule) (duration : Z) (endDate : Date)
  (attendees : list string).

Let threshold : Z := ceilHalf (Z.of_nat (List.length attendees)).

(** One tick further: the conditions on a tick of the loop started at the
    next tick are those on the following tick of the loop started here. *)
Lemma shift_tick (timeSlot : Date) (s : Slot) :
  withinWindow duration endDate timeSlot ->
  ((exists k, 0 <= k /\
      reachesTick duration (nextTick timeSlot) endDate k /\
      businessTick tz (tick (nextTick timeSlot) k) /\
      threshold <= countAvailable schedules (tick (nextTick timeSlot) k) duration 0 /\
      s = slotAt schedules duration (tick (nextTick timeSlot) k)) <->
   (exists k, 0 < k /\
      reachesTick duration timeSlot endDate k /\
      businessTick tz (tick timeSlot k) /\
      threshold <= countAvailable schedules (tick timeSlot k) duration 0 /\
      s = slotAt schedules duration (tick timeSlot k))).
Proof.
  intros H0. split; intros (k & Hk & Hr & Hb & Hc & ->).
  - exists (k + 1). rewrite <- !tick_next.
    split; [lia|]. split; [|auto].
    apply (reachesTick_next duration timeSlot endDate k Hk H0 Hr).
  - exists (k - 1). rewrite !tick_next. replace (k - 1 + 1) with k by lia.
    split; [lia|]. split; [|auto].
    apply (reachesTick_prev duration timeSlot endDate k Hk Hr).
Qed.

(** What the loop pushes: exactly the slots of the ticks that it gets to,
    that are in business hours on a weekday and that reach the threshold. *)
Lemma collectSlots_In (startDate : Date) (s : Slot) :
  In s (collectSlots tz schedules duration endDate attendees startDate) <->
  exists k, 0 <= k /\
    reachesTick duration startDate endDate k /\
    businessTick tz (tick startDate k) /\
    threshold <= countAvailable schedules (tick startDate k) duration 0 /\
    s = slotAt schedules duration (tick startDate k).
Proof.
  functional induction (collectSlots tz schedules duration endDate attendees startDate);
    simpl In;
    try (match goal with
         | IH : In _ _ <-> _, E : dateGtb _ _ = false |- _ =>
             rewrite IH, (shift_tick timeSlot s E)
         end);
    unbool.
  1, 8: (* break, and the window exhausted *)
    split; [intros [] | intros (k & Hk & Hr & _)];
    destruct (reachesTick_start _ _ _ _ Hk Hr) as [Hlt Hw];
    unfold withinWindow, Date in *; congruence || lia.
  1-4, 6: (* the tick is skipped *)
    split; intros (k & Hk & Hr & Hb & Hc & ->);
    [ exists k; split; [lia | auto]
    | assert (k <> 0)
        by (intros ->; rewrite tick_0 in Hb, Hc; destruct Hb as (Hh & Hd0 & Hd6);
            unfold threshold, Date in *; lia || contradiction);
      exists k; split; [lia | auto] ].
  (* the slot is pushed *)
  split.
  - intros [<- | (k & Hk & Hr & Hb & Hc & ->)].
    + exists 0. rewrite tick_0. split; [lia|]. split; [|split; [|split]].
      * split; [rewrite tick_0; assumption|]. intros j Hj.
        replace j with 0 by lia. rewrite tick_0. assumption.
      * unfold businessTick. auto.
      * unfold threshold. assumption.
      * reflexivity.
    + exists k. split; [lia | auto].
  - intros (k & Hk & Hr & Hb & Hc & ->).
    destruct (Z.eq_dec k 0) as [-> | Hne].
    + left. rewrite tick_0. reflexivity.
    + right. exists k. split; [lia | auto].
Qed.

(** At a tick that passes the structural filters, the slot is pushed exactly
    when the threshold is reached. *)
Lemma collectSlots_valid_tick (startDate : Date) (k : Z) :
  0 <= k -> structurallyValid tz duration endDate (tick startDate k) ->
  (In (slotAt schedules duration (tick startDate k))
      (collectSlots tz schedules duration endDate attendees startDate) <->
   threshold <= countAvailable schedules (tick startDate k) duration 0).
Proof.
  intros Hk Hv. rewrite collectSlots_In. split.
  - intros (k' & Hk' & _ & _ & Hc & E).
    assert (k = k') as <-; [|exact Hc].
    pose proof (f_equal start E) as Es. simpl in Es.
    unfold tick, msPerMinute, Date in Es. lia.
  - intros Hc. destruct (structurallyValid_reaches _ _ _ _ _ Hk Hv) as [Hr Hb].
    exists k. auto.
Qed.

End Collect.

(** *** Ranking *)

Section Sorting.

Context {A : Type} (cmp : A -> A -> Z) (before : A -> A -> Prop).
Hypothesis before_trans : forall x y z, before x y -> before y z -> before x z.
Hypothesis cmp_le : forall x y, cmp x y <= 0 -> before x y.
Hypothesis cmp_gt : forall x y, 0 < cmp x y -> before y x.

Lemma insertBy_perm (x : A) (l : list A) : Permutation (x :: l) (insertBy cmp x l).
Proof.
  induction l as [|y r IH]; simpl; [constructor; constructor|].
  destruct (cmp x y <=? 0); [apply Permutation_refl|].
  eapply perm_trans; [apply perm_swap | apply perm_skip, IH].
Qed.

Lemma sortBy_perm (l : list A) : Permutation l (sortBy cmp l).
Proof.
  induction l as [|x r IH]; simpl; [constructor|].
  eapply perm_trans; [apply perm_skip, IH | apply insertBy_perm].
Qed.

Lemma insertBy_sorted (x : A) (l : list A) :
  StronglySorted before l -> StronglySorted before (insertBy cmp x l).
Proof.
  induction 1 as [|y r Hr IH Hy]; simpl.
  - constructor; constructor.
  - destruct (cmp x y <=? 0) eqn:E.
    + apply Z.leb_le in E. constructor; [constructor; assumption|].
      constructor; [apply cmp_le, E|].
      eapply Forall_impl; [|exact Hy]. intros z Hz.
      eapply before_trans; [apply cmp_le, E | exact Hz].
    + apply Z.leb_gt in E. constructor; [exact IH|].
      eapply Permutation_Forall; [apply insertBy_perm|].
      constructor; [apply cmp_gt, E | exact Hy].
Qed.

Lemma sortBy_sorted (l : list A) : StronglySorted before (sortBy cmp l).
Proof.
  induction l as [|x r IH]; simpl; [constructor | apply insertBy_sorted, IH].
Qed.

End Sorting.

Lemma firstn_In {A : Type} (n : nat) (l : list A) (x : A) :
  In x (firstn n l) -> In x l.
Proof.
  intros H. rewrite <- (firstn_skipn n l). apply in_or_app. left. exact H.
Qed.

Lemma StronglySorted_firstn {A : Type} (R : A -> A -> Prop) (n : nat) (l : list A) :
  StronglySorted R l -> StronglySorted R (firstn n l).
Proof.
  intros H. revert n. induction H as [|x r Hr IH Hx]; intros [|n]; simpl;
    try constructor; [apply IH|].
  apply Forall_forall. intros y Hy. rewrite Forall_forall in Hx.
  apply Hx. eapply firstn_In; exact Hy.
Qed.


Lemma rankedBefore_trans (x y z : Slot) :
  rankedBefore x y -> rankedBefore y z -> rankedBefore x z.
Proof. unfold rankedBefore, Date. lia. Qed.

Lemma compareSlots_le (x y : Slot) : compareSlots x y <= 0 -> rankedBefore x y.
Proof.
  unfold compareSlots, rankedBefore.
  destruct (availableAttendees y =? availableAttendees x) eqn:E; simpl; unbool;
    unfold Date in *; lia.
Qed.

Lemma compareSlots_gt (x y : Slot) : 0 < compareSlots x y -> rankedBefore y x.
Proof.
  unfold compareSlots, rankedBefore.
  destruct (availableAttendees y =? availableAttendees x) eqn:E; simpl; unbool;
    unfold Date in *; lia.
Qed.

(** Every slot returned was pushed by the loop. *)
Lemma findMeetingSlots_incl (tz : Z) (schedules : list Schedule) (duration : Z)
    (startDate endDate : Date) (attendees : list string) (s : Slot) :
  In s (findMeetingSlots tz schedules duration startDate endDate attendees) ->
  In s (collectSlots tz schedules duration endDate attendees startDate).
Proof.
  unfold findMeetingSlots, slice0. intros H. apply firstn_In in H.
  eapply Permutation_in; [apply Permutation_sym, sortBy_perm | exact H].
Qed.

(** When the loop pushes at most ten slots, all of them are returned. *)
Lemma findMeetingSlots_all (tz : Z) (schedules : list Schedule) (duration : Z)
    (startDate endDate : Date) (attendees : list string) :
  (List.length (collectSlots tz schedules duration endDate attendees startDate) <= 10)%nat ->
  Permutation (collectSlots tz schedules duration endDate attendees startDate)
    (findMeetingSlots tz schedules duration startDate endDate attendees).
Proof.
  intros H. unfold findMeetingSlots, slice0.
  rewrite firstn_all2; [apply sortBy_perm|].
  rewrite <- (Permutation_length (sortBy_perm compareSlots _)). exact H.
Qed.

(** *** An attendee without schedule data *)

Lemma isTimeFree_noScheduleData (s : Schedule) (t : Date) (d : Z) :
  noScheduleData s = true -> isTimeFree s t d = true.
Proof.
  unfold noScheduleData, isTimeFree. intros H.
  destruct (negb (truthy (freeBusyViewInfo s))); [reflexivity|].
  simpl in H. destruct (busyTimes s) as [[|b l]|]; try discriminate; reflexivity.
Qed.

Lemma countAvailable_insert_free (s : Schedule) (l1 l2 : list Schedule)
    (t : Date) (d c : Z) :
  isTimeFree s t d = true ->
  countAvailable (l1 ++ s :: l2) t d c = countAvailable (l1 ++ l2) t d c + 1.
Proof.
  intros H. rewrite !countAvailable_app. simpl. rewrite H.
  rewrite !(countAvailable_filter l2). lia.
Qed.

(** C1, as the code has it.  A schedule entry that carries no data (no
    [freeBusyViewInfo], or no or an empty [busyTimes]) is free at every slot:
    [isTimeFree] answers [true], the entry adds one to the free count of
    every slot wherever it stands among the schedules, and a slot that is
    retained without the entry is retained with it, with one more available
    attendee.  The count runs over the schedule entries: it is never more
    than their number, whatever the number of attendees. *)
Theorem no_schedule_data_counts_as_free (s : Schedule) :
  noScheduleData s = true ->
  (forall t d, isTimeFree s t d = true) /\
  (forall l1 l2 t d c,
      countAvailable (l1 ++ s :: l2) t d c = countAvailable (l1 ++ l2) t d c + 1) /\
  (forall tz l1 l2 duration startDate endDate attendees slot,
      In slot (collectSlots tz (l1 ++ l2) duration endDate attendees startDate) ->
      In (mkSlot (start slot) (end_ slot) (availableAttendees slot + 1))
         (collectSlots tz (l1 ++ s :: l2) duration endDate attendees startDate)) /\
  (forall schedules t d,
      countAvailable schedules t d 0 <= Z.of_nat (List.length schedules)).
Proof.
  intros H. split; [|split; [|split]].
  - intros t d. apply isTimeFree_noScheduleData, H.
  - intros. apply countAvailable_insert_free, isTimeFree_noScheduleData, H.
  - intros tz l1 l2 duration startDate endDate attendees slot Hin.
    apply collectSlots_In in Hin. destruct Hin as (k & Hk & Hr & Hb & Hc & ->).
    apply collectSlots_In. exists k.
    pose proof (countAvailable_insert_free s l1 l2 (tick startDate k) duration 0
                  (isTimeFree_noScheduleData s _ _ H)) as E.
    split; [exact Hk|]. split; [exact Hr|]. split; [exact Hb|]. split.
    + rewrite E. lia.
    + unfold slotAt. simpl. rewrite E. reflexivity.
  - intros schedules t d. apply countAvailable_le_length.
Qed.

Lemma no_schedule_data_counts_as_free_witness :
  noScheduleData silentSchedule = true /\
  isTimeFree silentSchedule monday9 30 = true /\
  countAvailable ([busyAtNine] ++ silentSchedule :: [silentSchedule]) monday9 30 0 =
    countAvailable ([busyAtNine] ++ [silentSchedule]) monday9 30 0 + 1.
Proof.
  pose proof (no_schedule_data_counts_as_free silentSchedule eq_refl) as (H1 & H2 & _).
  split; [reflexivity|]. split; [apply H1 | apply H2].
Defined.

(** C1, as the specification has it, fails for an attendee for whom the
    service returned no schedule entry at all: the attendee is not counted.
    On Monday 2024-01-08 at 09:00, a tick that passes the structural filters,
    with one attendee and no schedule entry the free count is 0, below the
    threshold of 1, and no slot is returned. *)
Lemma attendee_without_entry_not_counted :
  structurallyValid 0 30 (monday9 + 1800000) monday9 /\
  countAvailable [] monday9 30 0 = 0 /\
  ceilHalf (Z.of_nat (List.length ["a"%string])) = 1 /\
  findMeetingSlots 0 [] 30 monday9 (monday9 + 1800000) ["a"%string] = [].
Proof.
  split; [|split; [|split]]; try (vm_compute; reflexivity).
  unfold structurallyValid. vm_compute. repeat split; discriminate.
Qed.

(** *** The majority threshold *)

Lemma tick_inj (startDate : Date) (k k' : Z) :
  tick startDate k = tick startDate k' -> k = k'.
Proof. unfold tick, msPerMinute, Date. lia. Qed.

(** C4. At a tick that passes the structural filters, the loop retains the
    slot exactly when the number of free schedules reaches
    [Math.ceil(attendees.length / 2)]; the count is the number of schedules
    for which [isTimeFree] holds; with no attendee the slot is always
    retained; and when at most ten slots are retained, the same holds of the
    list that is returned. *)
Theorem retained_iff_majority (tz : Z) (schedules : list Schedule) (duration : Z)
    (startDate endDate : Date) (attendees : list string) (k : Z) :
  0 <= k ->
  structurallyValid tz duration endDate (tick startDate k) ->
  let n := Z.of_nat (List.length attendees) in
  let slot := slotAt schedules duration (tick startDate k) in
  let retained := collectSlots tz schedules duration endDate attendees startDate in
  (In slot retained <-> availableAttendees slot >= ceilHalf n) /\
  availableAttendees slot =
    Z.of_nat (List.length
      (filter (fun s => isTimeFree s (tick startDate k) duration) schedules)) /\
  (attendees = [] -> In slot retained) /\
  ((List.length retained <= 10)%nat ->
   (In slot (findMeetingSlots tz schedules duration startDate endDate attendees) <->
    availableAttendees slot >= ceilHalf n)).
Proof.
  intros Hk Hv n slot retained.
  assert (Hiff : In slot retained <-> availableAttendees slot >= ceilHalf n).
  { unfold retained, slot.
    rewrite (collectSlots_valid_tick tz schedules duration endDate attendees
               startDate k Hk Hv).
    fold n. simpl. lia. }
  split; [exact Hiff|]. split; [|split].
  - unfold slot. simpl. rewrite countAvailable_filter. lia.
  - intros ->. apply Hiff. unfold n, slot. simpl.
    pose proof (countAvailable_nonneg schedules (tick startDate k) duration).
    rewrite ceilHalf_0. lia.
  - intros Hlen. rewrite <- Hiff. split.
    + apply findMeetingSlots_incl.
    + apply Permutation_in, findMeetingSlots_all, Hlen.
Qed.

Lemma retained_iff_majority_witness :
  let slot := slotAt threeSchedules 30 (tick monday9 0) in
  structurallyValid 0 30 (monday9 + 7200000) (tick monday9 0) /\
  availableAttendees slot = 2 /\
  (In slot (collectSlots 0 threeSchedules 30 (monday9 + 7200000) threeAttendees monday9)
   <-> availableAttendees slot >= ceilHalf 3).
Proof.
  assert (Hv : structurallyValid 0 30 (monday9 + 7200000) (tick monday9 0))
    by (vm_compute; repeat split; discriminate).
  pose proof (retained_iff_majority 0 threeSchedules 30 monday9 (monday9 + 7200000)
                threeAttendees 0 ltac:(lia) Hv) as (H & _).
  split; [exact Hv|]. split; [reflexivity | exact H].
Defined.

(** *** Ranking and truncation *)

(** C5. The list that is returned is sorted by descending
    [availableAttendees], ties by ascending [start], and has at most ten
    elements. *)
Theorem result_ranked_and_truncated (tz : Z) (schedules : list Schedule)
    (duration : Z) (startDate endDate : Date) (attendees : list string) :
  StronglySorted rankedBefore
    (findMeetingSlots tz schedules duration startDate endDate attendees) /\
  (List.length (findMeetingSlots tz schedules duration startDate endDate attendees)
   <= 10)%nat.
Proof.
  unfold findMeetingSlots, slice0. split.
  - apply StronglySorted_firstn.
    apply sortBy_sorted;
      [exact rankedBefore_trans | exact compareSlots_le | exact compareSlots_gt].
  - apply firstn_le_length.
Qed.

(** *** Business hours and weekdays *)

Lemma collectSlots_single (tz duration : Z) (t : Date) :
  0 < duration ->
  - maxTime <= t -> t + 30 * 60 * 1000 + duration * 60 * 1000 <= maxTime ->
  9 <= getHours tz t < 17 -> getDay tz t <> 0 -> getDay tz t <> 6 ->
  collectSlots tz [] duration (t + duration * 60 * 1000) [] t =
  [mkSlot t (t + duration * 60 * 1000) 0].
Proof.
  intros Hd Hlo Hhi Hh Hd0 Hd6. unfold Date in *.
  rewrite collectSlots_equation.
  replace (t <? t + duration * 60 * 1000) with true by (symmetry; apply Z.ltb_lt; lia).
  rewrite (dateGtb_newDate_le (t + duration * 60 * 1000) (t + duration * 60 * 1000))
    by lia.
  replace (getHours tz t <? 9) with false by (symmetry; apply Z.ltb_ge; lia).
  replace (getHours tz t >=? 17) with false
    by (symmetry; rewrite Z.geb_leb; apply Z.leb_gt; lia).
  replace (getDay tz t =? 0) with false by (symmetry; apply Z.eqb_neq; lia).
  replace (getDay tz t =? 6) with false by (symmetry; apply Z.eqb_neq; lia).
  simpl. f_equal.
  rewrite collectSlots_equation. unfold nextTick, msPerMinute.
  destruct (t + 30 * (60 * 1000) <? t + duration * 60 * 1000); [|reflexivity].
  assert (E : dateGtb (newDate (t + 30 * (60 * 1000) + duration * 60 * 1000))
                (t + duration * 60 * 1000) = true)
    by (apply dateGtb_newDate; timeLia).
  rewrite E. reflexivity.
Qed.

(** C6. Every slot that is returned starts at an hour in [9,17) of a day
    that is neither Sunday (0) nor Saturday (6).  The filter reads the start
    only: a window that begins at a business-hour instant of a weekday and
    lasts exactly the duration yields that one slot whatever the hour of its
    end, as long as the end of a slot one tick later is still in the range of
    [Date], and on Monday 2024-01-08 the slot from 16:45 to 17:15 is returned,
    its end being at hour 17. *)
Theorem business_hours_filter_on_start_only :
  (forall tz schedules duration startDate endDate attendees s,
      In s (findMeetingSlots tz schedules duration startDate endDate attendees) ->
      9 <= getHours tz (start s) < 17 /\
      getDay tz (start s) <> 0 /\ getDay tz (start s) <> 6) /\
  (forall tz duration t,
      0 < duration ->
      - maxTime <= t -> t + 30 * 60 * 1000 + duration * 60 * 1000 <= maxTime ->
      9 <= getHours tz t < 17 -> getDay tz t <> 0 -> getDay tz t <> 6 ->
      findMeetingSlots tz [] duration t (t + duration * 60 * 1000) [] =
      [mkSlot t (t + duration * 60 * 1000) 0]) /\
  (let t := 1704732300000 in
   findMeetingSlots 0 [] 30 t (t + 30 * 60 * 1000) [] =
     [mkSlot t (t + 30 * 60 * 1000) 0] /\
   getHours 0 t = 16 /\ getDay 0 t = 1 /\ getHours 0 (t + 30 * 60 * 1000) = 17).
Proof.
  split; [|split].
  - intros tz schedules duration startDate endDate attendees s Hin.
    apply findMeetingSlots_incl, collectSlots_In in Hin.
    destruct Hin as (k & _ & _ & (Hh & Hd0 & Hd6) & _ & ->).
    simpl. auto.
  - intros tz duration t Hd Hlo Hhi Hh Hd0 Hd6. unfold findMeetingSlots.
    rewrite collectSlots_single by assumption. reflexivity.
  - vm_compute. repeat split.
Qed.

Lemma business_hours_filter_on_start_only_witness :
  let s := mkSlot monday9 (monday9 + 1800000) 2 in
  9 <= getHours 0 (start s) < 17 /\ getDay 0 (start s) <> 0 /\ getDay 0 (start s) <> 6.
Proof.
  apply (proj1 business_hours_filter_on_start_only 0 threeSchedules 30 monday9
           (monday9 + 7200000) threeAttendees).
  vm_compute. right. right. right. left. reflexivity.
Defined.

(** *** The end of the window *)

(** At the end of the range of [Date] the loop does not break: on the last
    Friday of the range, from 11:00 to 12:00 local time twelve hours behind
    UTC, the window lasts exactly the duration of 60 minutes and two slots are
    returned, the end of the second being an Invalid Date. *)
Example window_at_end_of_range :
  let t := maxTime - 3600000 in
  getHours 720 t = 11 /\ getDay 720 t = 5 /\
  findMeetingSlots 720 [] 60 t (t + 60 * 60 * 1000) [] =
    [mkSlot t (ValidDate maxTime) 0; mkSlot (t + 1800000) InvalidDate 0].
Proof. vm_compute. repeat split. Qed.





(** *** A schedule without [freeBusyViewInfo] *)

(** C10. When [freeBusyViewInfo] is absent or falsy, [isTimeFree] answers
    [true] for every slot, whatever [busyTimes] holds, also intervals that
    cover the slot; the schedule is counted as free at every slot. *)
Theorem falsy_freeBusyViewInfo_always_free (s : Schedule) :
  truthy (freeBusyViewInfo s) = false ->
  forall t d,
    isTimeFree s t d = true /\
    (forall l c, countAvailable (s :: l) t d c = countAvailable l t d (c + 1)).
Proof.
  intros H t d.
  assert (E : isTimeFree s t d = true) by (unfold isTimeFree; rewrite H; reflexivity).
  split; [exact E|]. intros l c. simpl. rewrite E. reflexivity.
Qed.

Lemma falsy_freeBusyViewInfo_always_free_witness :
  noConflict monday9 (monday9 + 30 * 60 * 1000)
    [mkBusyTime monday9 (monday9 + 1800000)] = false /\
  isTimeFree mutedBusy monday9 30 = true.
Proof.
  split; [reflexivity|].
  apply (falsy_freeBusyViewInfo_always_free mutedBusy eq_refl monday9 30).
Defined.

(** With a truthy [freeBusyViewInfo] the busy intervals decide. *)
Lemma isTimeFree_truthy (s : Schedule) (t : Date) (d : Z) :
  truthy (freeBusyViewInfo s) = true ->
  isTimeFree s t d =
  noConflict t (t + d * 60 * 1000)
    (match busyTimes s with Some l => l | None => [] end).
Proof. intros H. unfold isTimeFree. rewrite H. reflexivity. Qed.

(** *** Two runs *)

(** Three attendees, the first busy from 09:00 to 09:30, Monday 09:00 to
    11:00, 30 minutes: the slot at 09:00 has two free attendees and comes
    after the three slots that have three. *)
Example findMeetingSlots_monday :
  findMeetingSlots 0 threeSchedules 30 monday9 (monday9 + 7200000) threeAttendees =
  [ mkSlot (monday9 + 1800000) (monday9 + 3600000) 3;
    mkSlot (monday9 + 3600000) (monday9 + 5400000) 3;
    mkSlot (monday9 + 5400000) (monday9 + 7200000) 3;
    mkSlot monday9 (monday9 + 1800000) 2 ].
Proof. vm_compute. reflexivity. Qed.

(** The same search two days earlier, on a Saturday, finds nothing. *)
Example findMeetingSlots_saturday :
  findMeetingSlots 0 threeSchedules 30 (monday9 - 2 * msPerDay)
    (monday9 - 2 * msPerDay + 7200000) threeAttendees = [].
Proof. vm_compute. reflexivity. Qed.

End CalendarFacts.

Module AuthFacts.

Import Auth Server Samples.
Local Open Scope string_scope.

(** *** The admission checks *)

Lemma validateTenant_run (w : World) :
  exists line,
    validateTenant w =
    (Ok match currentAccount w with
        | Some a => String.eqb (tenantId a) expectedTenantId
        | None => false
        end, logLine line w).
Proof.
  unfold validateTenant, bind, gets, accountProperty, log, modify, ret.
  destruct (currentAccount w) as [a|] eqn:E; simpl.
  - rewrite E. destruct (String.eqb (tenantId a) expectedTenantId); simpl; eauto.
  - eauto.
Qed.

Lemma validateUser_run (w : World) :
  exists line,
    validateUser w =
    (Ok match currentAccount w with
        | Some a => endsWith (username a) requiredDomain
        | None => false
        end, logLine line w).
Proof.
  unfold validateUser, bind, gets, accountProperty, log, modify, ret.
  destruct (currentAccount w) as [a|] eqn:E; simpl.
  - rewrite E. destruct (endsWith (username a) requiredDomain); simpl; eauto.
  - eauto.
Qed.

(** C8. Without a Session both checks return [false] and do not throw (in
    no state does either throw); with a Session of another tenant
    [validateTenant] returns [false]; and whatever the tenant,
    [validateUser] returns whether the username ends with the domain
    suffix. *)
Theorem validation_fails_closed :
  (forall w, currentAccount w = None ->
     fst (validateTenant w) = Ok false /\ fst (validateUser w) = Ok false) /\
  (forall w, exists b c,
     fst (validateTenant w) = Ok b /\ fst (validateUser w) = Ok c) /\
  (forall w a, currentAccount w = Some a -> tenantId a <> expectedTenantId ->
     fst (validateTenant w) = Ok false) /\
  (forall w a, currentAccount w = Some a ->
     fst (validateUser w) = Ok (endsWith (username a) "@timelarp.com")).
Proof.
  repeat split.
  - destruct (validateTenant_run w) as [l ->]. simpl. rewrite H. reflexivity.
  - destruct (validateUser_run w) as [l ->]. simpl. rewrite H. reflexivity.
  - intros w. destruct (validateTenant_run w) as [l ->].
    destruct (validateUser_run w) as [l' ->]. simpl. eauto.
  - intros w a H Hne. destruct (validateTenant_run w) as [l ->]. simpl. rewrite H.
    apply String.eqb_neq in Hne. rewrite Hne. reflexivity.
  - intros w a H. destruct (validateUser_run w) as [l ->]. simpl. rewrite H.
    reflexivity.
Qed.

Lemma validation_fails_closed_witness :
  fst (validateTenant initialWorld) = Ok false /\
  fst (validateUser initialWorld) = Ok false /\
  fst (validateTenant outsiderWorld) = Ok false /\
  fst (validateUser outsiderWorld) = Ok true.
Proof.
  destruct validation_fails_closed as (H1 & _ & H3 & H4).
  split; [apply (H1 initialWorld eq_refl)|].
  split; [apply (H1 initialWorld eq_refl)|].
  split.
  - apply (H3 outsiderWorld outsider eq_refl). vm_compute. discriminate.
  - apply (H4 outsiderWorld outsider eq_refl).
Defined.

(** *** The token cache plugin *)

Section CachePluginFacts.

Variable Cache : Type.
Variable deserialize : Cache -> string -> result Cache.
Variable serialize : Cache -> result string.

#[local] Abbreviation beforeAccess := (beforeCacheAccess Cache deserialize).
#[local] Abbreviation afterAccess := (afterCacheAccess Cache serialize).
#[local] Abbreviation withLine := (Auth.withLine Cache).

Lemma beforeCacheAccess_cases (io : IoFaults) (st : PluginState Cache) :
  fst (beforeAccess io st) = Ok tt /\
  disk Cache (snd (beforeAccess io st)) = disk Cache st /\
  (snd (beforeAccess io st) =
     withLine "No existing token cache found, will create new one" st \/
   exists data c,
     readFault io = false /\ cacheFile (disk Cache st) = Some data /\
     deserialize (tokenCache Cache st) data = Ok c /\
     snd (beforeAccess io st) =
       mkPluginState Cache c (hasChanged Cache st) (disk Cache st)
         (pluginConsole Cache st)).
Proof.
  unfold beforeCacheAccess, tryCatch, bind, readFile, tokenCacheDeserialize,
    pluginLog, modify, Auth.withLine.
  destruct (readFault io); simpl; [auto|].
  destruct (cacheFile (disk Cache st)) as [data|]; simpl; [|auto].
  destruct (deserialize (tokenCache Cache st) data) as [c|e] eqn:E; simpl; [|auto].
  repeat split. right. exists data, c. auto.
Qed.

Lemma afterCacheAccess_unchanged (io : IoFaults) (st : PluginState Cache) :
  hasChanged Cache st = false -> afterAccess io st = (Ok tt, st).
Proof.
  intros H. unfold afterCacheAccess, bind, gets, ret. rewrite H. reflexivity.
Qed.

Lemma afterCacheAccess_changed (io : IoFaults) (st : PluginState Cache) :
  hasChanged Cache st = true ->
  fst (afterAccess io st) = Ok tt /\
  ((exists data,
      serialize (tokenCache Cache st) = Ok data /\
      snd (afterAccess io st) =
        withLine "Token cache updated"
          (mkPluginState Cache (tokenCache Cache st) true (mkDisk true (Some data))
             (pluginConsole Cache st))) \/
   (exists error,
      cacheFile (disk Cache (snd (afterAccess io st))) = cacheFile (disk Cache st) /\
      pluginConsole Cache (snd (afterAccess io st)) =
        (pluginConsole Cache st ++
         [("Failed to write token cache: " ++ error)%string])%list)).
Proof.
  intros H.
  unfold afterCacheAccess, tryCatch, bind, gets, mkdir, tokenCacheSerialize,
    writeFile, pluginLog, modify, Auth.withLine.
  rewrite H. simpl.
  destruct (mkdirFault io); simpl; [split; [reflexivity | right; eauto]|].
  destruct (serialize (tokenCache Cache st)) as [data|e]; simpl;
    [|split; [reflexivity | right; eauto]].
  destruct (writeFault io); simpl; [split; [reflexivity | right; eauto]|].
  rewrite H. split; [reflexivity | left; eauto].
Qed.

(** A read that fails, for whatever cause, is logged and changes nothing
    else. *)
Lemma beforeCacheAccess_failure (io : IoFaults) (st : PluginState Cache) :
  readFault io = true \/ cacheFile (disk Cache st) = None \/
  (exists data e, cacheFile (disk Cache st) = Some data /\
                  deserialize (tokenCache Cache st) data = Throw e) ->
  snd (beforeAccess io st) =
    withLine "No existing token cache found, will create new one" st.
Proof.
  unfold beforeCacheAccess, tryCatch, bind, readFile, tokenCacheDeserialize,
    pluginLog, modify, Auth.withLine.
  intros [H | [H | (data & e & H & He)]].
  - rewrite H. reflexivity.
  - destruct (readFault io); [reflexivity|]. rewrite H. reflexivity.
  - destruct (readFault io); [reflexivity|]. rewrite H. simpl. rewrite He. reflexivity.
Qed.

(** A write that fails, for whatever cause, is logged with its error, and
    leaves the blob and the cache as they are. *)
Lemma afterCacheAccess_failure (io : IoFaults) (st : PluginState Cache) :
  hasChanged Cache st = true ->
  mkdirFault io = true \/ writeFault io = true \/
  (exists e, serialize (tokenCache Cache st) = Throw e) ->
  exists error,
    pluginConsole Cache (snd (afterAccess io st)) =
      (pluginConsole Cache st ++
       [("Failed to write token cache: " ++ error)%string])%list /\
    cacheFile (disk Cache (snd (afterAccess io st))) = cacheFile (disk Cache st) /\
    tokenCache Cache (snd (afterAccess io st)) = tokenCache Cache st.
Proof.
  intros H Hfail.
  unfold afterCacheAccess, tryCatch, bind, gets, mkdir, tokenCacheSerialize,
    writeFile, pluginLog, modify, Auth.withLine.
  rewrite H. simpl.
  destruct (mkdirFault io) eqn:Em; simpl; [eauto|].
  destruct (serialize (tokenCache Cache st)) as [data|e] eqn:Es; simpl; [|eauto].
  destruct (writeFault io) eqn:Ew; simpl; [eauto|].
  destruct Hfail as [Hf | [Hf | (e & Hf)]]; discriminate.
Qed.

(** C9. Neither hook of the cache plugin throws, whatever the file system
    and the serialization do.  [beforeCacheAccess] leaves the disk as it
    is; when the file is missing it leaves the cache as it is and logs one
    line, and so it does when the read or the deserialization fails.
    [afterCacheAccess] does nothing when [hasChanged] is false, so a blob on
    the disk that differs afterwards means that [hasChanged] was true; when
    it is true, either the serialized cache is on the disk, or the blob is
    the one before; a failure of the directory creation, of the
    serialization or of the write is logged with its error, and a write that
    is done is logged too. *)
Theorem cache_plugin_absorbs_faults (io : IoFaults) (st : PluginState Cache) :
  fst (beforeAccess io st) = Ok tt /\
  fst (afterAccess io st) = Ok tt /\
  disk Cache (snd (beforeAccess io st)) = disk Cache st /\
  (cacheFile (disk Cache st) = None ->
   snd (beforeAccess io st) =
     withLine "No existing token cache found, will create new one" st) /\
  (hasChanged Cache st = false -> snd (afterAccess io st) = st) /\
  (cacheFile (disk Cache (snd (afterAccess io st))) <> cacheFile (disk Cache st) ->
   hasChanged Cache st = true /\
   exists data,
     serialize (tokenCache Cache st) = Ok data /\
     cacheFile (disk Cache (snd (afterAccess io st))) = Some data) /\
  (hasChanged Cache st = true ->
   cacheFile (disk Cache (snd (afterAccess io st))) = cacheFile (disk Cache st) \/
   exists data,
     serialize (tokenCache Cache st) = Ok data /\
     cacheFile (disk Cache (snd (afterAccess io st))) = Some data) /\
  (readFault io = true \/ cacheFile (disk Cache st) = None \/
   (exists data e, cacheFile (disk Cache st) = Some data /\
                   deserialize (tokenCache Cache st) data = Throw e) ->
   snd (beforeAccess io st) =
     withLine "No existing token cache found, will create new one" st) /\
  (hasChanged Cache st = true ->
   mkdirFault io = true \/ writeFault io = true \/
   (exists e, serialize (tokenCache Cache st) = Throw e) ->
   exists error,
     pluginConsole Cache (snd (afterAccess io st)) =
       (pluginConsole Cache st ++
        [("Failed to write token cache: " ++ error)%string])%list /\
     cacheFile (disk Cache (snd (afterAccess io st))) = cacheFile (disk Cache st) /\
     tokenCache Cache (snd (afterAccess io st)) = tokenCache Cache st) /\
  (forall data,
     hasChanged Cache st = true -> mkdirFault io = false -> writeFault io = false ->
     serialize (tokenCache Cache st) = Ok data ->
     snd (afterAccess io st) =
       withLine "Token cache updated"
         (mkPluginState Cache (tokenCache Cache st) true (mkDisk true (Some data))
            (pluginConsole Cache st))).
Proof.
  destruct (beforeCacheAccess_cases io st) as (Hb1 & Hb2 & Hb3).
  split; [exact Hb1|].
  split; [|split; [exact Hb2|split; [|split; [|split; [|split; [|split; [|split]]]]]]].
  - destruct (hasChanged Cache st) eqn:E.
    + apply afterCacheAccess_changed, E.
    + rewrite afterCacheAccess_unchanged by exact E. reflexivity.
  - intros Hnone. destruct Hb3 as [-> | (data & c & _ & Hsome & _)];
      [reflexivity | congruence].
  - intros E. rewrite afterCacheAccess_unchanged by exact E. reflexivity.
  - intros Hdiff. destruct (hasChanged Cache st) eqn:E.
    + split; [reflexivity|].
      destruct (afterCacheAccess_changed io st E)
        as (_ & [(data & Hs & ->) | (error & Hsame & _)]).
      * exists data. split; [exact Hs | reflexivity].
      * contradiction.
    + rewrite afterCacheAccess_unchanged in Hdiff by exact E. contradiction.
  - intros E.
    destruct (afterCacheAccess_changed io st E)
      as (_ & [(data & Hs & ->) | (error & Hsame & _)]).
    + right. exists data. split; [exact Hs | reflexivity].
    + left. exact Hsame.
  - apply beforeCacheAccess_failure.
  - apply afterCacheAccess_failure.
  - intros data Hch Hmk Hwr Hser.
    unfold afterCacheAccess, tryCatch, bind, gets, mkdir, tokenCacheSerialize,
      writeFile, pluginLog, modify, Auth.withLine.
    rewrite Hch. simpl. rewrite Hmk. simpl. rewrite Hser. simpl. rewrite Hwr. simpl.
    rewrite Hch. reflexivity.
Qed.

End CachePluginFacts.

Lemma cache_plugin_absorbs_faults_witness :
  snd (beforeCacheAccess string blobDeserialize noFaults freshPlugin) =
    withLine string "No existing token cache found, will create new one" freshPlugin /\
  snd (afterCacheAccess string blobSerialize noFaults freshPlugin) = freshPlugin.
Proof.
  pose proof (cache_plugin_absorbs_faults string blobDeserialize blobSerialize
                noFaults freshPlugin) as (_ & _ & _ & H4 & H5 & _).
  split; [apply H4; reflexivity | apply H5; reflexivity].
Defined.

(** A write on a disk that refuses it: the hook returns normally, the blob
    is the one before and the console has the line of the failure. *)
Example failed_write_is_logged :
  let io := mkIoFaults false false true in
  let st := mkPluginState string "blob" true (mkDisk true (Some "old")) [] in
  afterCacheAccess string blobSerialize io st =
    (Ok tt,
     mkPluginState string "blob" true (mkDisk true (Some "old"))
       ["Failed to write token cache: EIO"]).
Proof. reflexivity. Qed.

(** *** The interactive login *)

Ltac unfoldHandlers :=
  unfold handleUnbound, handle, onRedirect, onListenReady, onTimer, serverClose,
    resolve, reject, settle, inWorld, tryCatch, bind, external, modify, ret.

Lemma handle_TimerFired_settles (l : Login) : promise (handle TimerFired l) <> Pending.
Proof. unfoldHandlers. simpl. destruct (promise l); discriminate. Qed.

(** The awaited promise is settled once the timer has fired: the login
    returns. *)
Lemma await_settles (events : list Event) (l : Login) :
  promise (await (events ++ [TimerFired]) l) <> Pending.
Proof.
  revert l. induction events as [|e rest IH]; intros l; simpl.
  - destruct (promise l) eqn:E; try (rewrite E; discriminate).
    simpl. discriminate.
  - destruct (promise l) eqn:E; try (rewrite E; discriminate). apply IH.
Qed.

Lemma awaitUnbound_settles (events : list Event) (l : Login) :
  promise (awaitUnbound (events ++ [TimerFired]) l) <> Pending.
Proof.
  revert l. induction events as [|e rest IH]; intros l; simpl.
  - destruct (promise l) eqn:E; try (rewrite E; discriminate).
    simpl. discriminate.
  - destruct (promise l) eqn:E; try (rewrite E; discriminate). apply IH.
Qed.

(** Awaiting the events and then the timer is awaiting the trace that ends
    with the timer. *)
Lemma await_then_timer (events : list Event) (l : Login) :
  await (events ++ [TimerFired]) l =
  match promise (await events l) with
  | Pending => snd (onTimer (await events l))
  | _ => await events l
  end.
Proof.
  revert l. induction events as [|e rest IH]; intros l; simpl.
  - destruct (promise l); reflexivity.
  - destruct (promise l) eqn:E; [apply IH | |]; rewrite E; reflexivity.
Qed.

Lemma awaitUnbound_then_timer (events : list Event) (l : Login) :
  awaitUnbound (events ++ [TimerFired]) l =
  match promise (awaitUnbound events l) with
  | Pending => snd (onTimer (awaitUnbound events l))
  | _ => awaitUnbound events l
  end.
Proof.
  revert l. induction events as [|e rest IH]; intros l; simpl.
  - destruct (promise l); reflexivity.
  - destruct (promise l) eqn:E; [apply IH | |]; rewrite E; reflexivity.
Qed.

Lemma awaitLogin_then_timer (events : list Event) (w : World) :
  awaitLogin (events ++ [TimerFired]) w =
  match promise (awaitLogin events w) with
  | Pending => snd (onTimer (awaitLogin events w))
  | _ => awaitLogin events w
  end.
Proof.
  unfold awaitLogin. destruct (listening w);
    [apply awaitUnbound_then_timer | apply await_then_timer].
Qed.

Lemma awaitLogin_settles (events : list Event) (w : World) :
  promise (awaitLogin (events ++ [TimerFired]) w) <> Pending.
Proof.
  unfold awaitLogin. destruct (listening w);
    [apply awaitUnbound_settles | apply await_settles].
Qed.

(** The outcome of the login is the settled promise of the trace that ends
    with the timer, and its state is the state of that trace. *)
Lemma interactiveLogin_trace (events : list Event) (w : World) :
  interactiveLogin events w =
  match promise (awaitLogin (events ++ [TimerFired]) w) with
  | Resolved => (Ok tt, world (awaitLogin (events ++ [TimerFired]) w))
  | Rejected error => (Throw error, world (awaitLogin (events ++ [TimerFired]) w))
  | Pending => (Throw timeoutMessage, world (awaitLogin (events ++ [TimerFired]) w))
  end.
Proof.
  unfold interactiveLogin. rewrite awaitLogin_then_timer.
  destruct (promise (awaitLogin events w)) eqn:E; rewrite ?E; try reflexivity.
  unfoldHandlers. simpl. rewrite E. reflexivity.
Qed.

Lemma handle_resolved_closed (e : Event) (l : Login) :
  promise l = Pending ->
  promise (handle e l) = Resolved ->
  listening (world (handle e l)) = false.
Proof.
  intros Hp. destruct e as [authUrl opened | code exchange |]; unfoldHandlers.
  - destruct authUrl as [url|err]; simpl; [destruct opened; simpl|];
      rewrite ?Hp; simpl; congruence.
  - destruct (listening (world l)); [|congruence].
    destruct (noCode code); simpl; [rewrite Hp; simpl; congruence|].
    destruct exchange as [account|err]; simpl; rewrite Hp; simpl; congruence.
  - simpl. rewrite Hp. simpl. congruence.
Qed.

Lemma await_resolved_closed (events : list Event) (l : Login) :
  promise l = Pending ->
  promise (await events l) = Resolved ->
  listening (world (await events l)) = false.
Proof.
  revert l. induction events as [|e rest IH]; intros l Hp; simpl.
  - congruence.
  - rewrite Hp. destruct (promise (handle e l)) eqn:E.
    + apply IH, E.
    + intros _. destruct rest; simpl; rewrite ?E; apply handle_resolved_closed; assumption.
    + destruct rest; simpl; rewrite ?E; congruence.
Qed.

(** A login whose server did not bind is never resolved: its own handler of
    the redirect does not run. *)
Lemma handleUnbound_not_resolved (e : Event) (l : Login) :
  promise l <> Resolved -> promise (handleUnbound e l) <> Resolved.
Proof.
  intros Hp. destruct e as [authUrl opened | code exchange |]; unfoldHandlers.
  - destruct authUrl as [url|err]; simpl; [destruct opened; simpl|];
      destruct (promise l); simpl; congruence.
  - exact Hp.
  - simpl. destruct (promise l); simpl; congruence.
Qed.

Lemma awaitUnbound_not_resolved (events : list Event) (l : Login) :
  promise l <> Resolved -> promise (awaitUnbound events l) <> Resolved.
Proof.
  revert l. induction events as [|e rest IH]; intros l Hp; simpl; [exact Hp|].
  destruct (promise l) eqn:E; try (rewrite E; exact Hp).
  apply IH, handleUnbound_not_resolved. congruence.
Qed.

(** The login returns normally only when it was started with the port
    free. *)
Lemma interactiveLogin_Ok_free (events : list Event) (w : World) :
  fst (interactiveLogin events w) = Ok tt -> listening w = false.
Proof.
  unfold interactiveLogin, awaitLogin. destruct (listening w); [|reflexivity].
  pose proof (awaitUnbound_not_resolved events (mkLogin w Pending)) as H.
  destruct (promise (awaitUnbound events (mkLogin w Pending))); simpl;
    try discriminate.
  intros _. exfalso. apply H; [discriminate | reflexivity].
Qed.

(** On the success path the listener is closed when the login returns. *)
Lemma interactiveLogin_success_closed (events : list Event) (w : World) :
  fst (interactiveLogin events w) = Ok tt ->
  listening (snd (interactiveLogin events w)) = false.
Proof.
  intros H. pose proof (interactiveLogin_Ok_free events w H) as Hfree.
  revert H. unfold interactiveLogin, awaitLogin. rewrite Hfree.
  set (l0 := mkLogin (setListening true w) Pending).
  destruct (promise (await events l0)) eqn:E; simpl; try discriminate.
  intros _. apply await_resolved_closed; [reflexivity | exact E].
Qed.

(** On the timeout path, when no request arrives, the listener is closed
    when the login returns. *)
Lemma interactiveLogin_timeout_closed (w : World) (url : string) :
  let r := interactiveLogin [ListenReady (Ok url) (Ok tt)] w in
  fst r = Throw "Authentication timeout - no response received within 5 minutes" /\
  listening (snd r) = false.
Proof.
  unfold interactiveLogin, awaitLogin.
  destruct (listening w); split; reflexivity.
Qed.

(** C2. The listener is still bound when the login returns on three of its
    paths: a redirect request without a code, a failed token exchange, and a
    failure to build or open the authorization URL.  In each the promise is
    rejected with the error and [server.close()] has not been called.  The
    redirect reaches the handler of this login when the login was started
    with the port free. *)
Theorem login_failure_leaves_listener_bound :
  (forall w exchange rest,
      listening w = false ->
      let r := interactiveLogin (Redirect None exchange :: rest) w in
      fst r = Throw "No authorization code received" /\ listening (snd r) = true) /\
  (forall w error rest,
      listening w = false ->
      let r := interactiveLogin (Redirect (Some "code") (Throw error) :: rest) w in
      fst r = Throw error /\ listening (snd r) = true) /\
  (forall w error opened rest,
      let r := interactiveLogin (ListenReady (Throw error) opened :: rest) w in
      fst r = Throw error /\ listening (snd r) = true).
Proof.
  split; [|split].
  - intros w exchange rest Hfree r. subst r.
    unfold interactiveLogin, awaitLogin. rewrite Hfree. simpl.
    destruct rest; simpl; split; reflexivity.
  - intros w error rest Hfree r. subst r.
    unfold interactiveLogin, awaitLogin. rewrite Hfree. simpl.
    destruct rest; simpl; split; reflexivity.
  - intros w error opened rest r. subst r.
    unfold interactiveLogin, awaitLogin.
    destruct (listening w) eqn:E; simpl; destruct rest; simpl; rewrite ?E;
      split; reflexivity.
Qed.

Lemma login_failure_leaves_listener_bound_witness :
  let r := interactiveLogin [Redirect None (Ok None)] initialWorld in
  fst r = Throw "No authorization code received" /\ listening (snd r) = true.
Proof.
  exact (proj1 login_failure_leaves_listener_bound initialWorld (Ok None) [] eq_refl).
Defined.

(** *** Sessions and admission *)

Lemma handle_serverPart (e : Event) (l : Login) :
  serverPart (world (handle e l)) = serverPart (world l).
Proof.
  destruct e as [authUrl opened | code exchange |]; unfoldHandlers.
  - destruct authUrl as [url|err]; simpl; [destruct opened; simpl|];
      destruct (promise l); reflexivity.
  - destruct (listening (world l)); [|reflexivity].
    destruct (noCode code); simpl; [destruct (promise l); reflexivity|].
    destruct exchange as [account|err]; simpl; destruct (promise l); reflexivity.
  - simpl. destruct (promise l); reflexivity.
Qed.

Lemma await_serverPart (events : list Event) (l : Login) :
  serverPart (world (await events l)) = serverPart (world l).
Proof.
  revert l. induction events as [|e rest IH]; intros l; simpl; [reflexivity|].
  destruct (promise l); try reflexivity. rewrite IH. apply handle_serverPart.
Qed.

Lemma handleUnbound_serverPart (e : Event) (l : Login) :
  serverPart (world (handleUnbound e l)) = serverPart (world l).
Proof.
  destruct e as [authUrl opened | code exchange |]; apply handle_serverPart.
Qed.

Lemma awaitUnbound_serverPart (events : list Event) (l : Login) :
  serverPart (world (awaitUnbound events l)) = serverPart (world l).
Proof.
  revert l. induction events as [|e rest IH]; intros l; simpl; [reflexivity|].
  destruct (promise l); try reflexivity. rewrite IH. apply handleUnbound_serverPart.
Qed.

Lemma interactiveLogin_serverPart (events : list Event) (w : World) :
  serverPart (snd (interactiveLogin events w)) = serverPart w.
Proof.
  rewrite interactiveLogin_trace.
  assert (H : serverPart (world (awaitLogin (events ++ [TimerFired]) w)) = serverPart w).
  { unfold awaitLogin. destruct (listening w).
    - rewrite awaitUnbound_serverPart. reflexivity.
    - rewrite await_serverPart. reflexivity. }
  destruct (promise (awaitLogin (events ++ [TimerFired]) w)); exact H.
Qed.

Lemma authenticate_serverPart (accounts : list AccountInfo) (silent : result string)
    (events : list Event) (w : World) :
  serverPart (snd (authenticate accounts silent events w)) = serverPart w.
Proof.
  unfold authenticate, acquireTokenSilent, tryCatch, bind, gets, external, modify,
    log, ret, throw.
  destruct accounts as [|account rest]; simpl.
  - apply interactiveLogin_serverPart.
  - destruct silent as [token|err]; simpl; [reflexivity|].
    rewrite interactiveLogin_serverPart. reflexivity.
Qed.

(** The two checks read the Session and leave it in place. *)
Lemma validate_keeps_session (w : World) :
  currentAccount (snd (validateTenant w)) = currentAccount w /\
  currentAccount (snd (validateUser w)) = currentAccount w.
Proof.
  destruct (validateTenant_run w) as [l ->].
  destruct (validateUser_run w) as [l' ->]. split; reflexivity.
Qed.

Lemma serverPart_eq (w w' : World) :
  serverPart w' = serverPart w ->
  calendarTools w' = calendarTools w /\ teamsTools w' = teamsTools w /\
  connected w' = connected w /\ exitCode w' = exitCode w.
Proof. unfold serverPart. intros H. inversion H. auto. Qed.

(** What [start] leaves behind, by the outcome of the login and of the two
    checks on the Session that the login left. *)
Lemma start_cases (accounts : list AccountInfo) (silent : result string)
    (events : list Event) (connectResult : result unit) (w : World) :
  let w' := snd (start accounts silent events connectResult w) in
  let session := currentAccount (snd (authenticate accounts silent events
                   (logLine "Authenticating with Microsoft Graph..."
                      (logLine "MCP Teams Connector starting..." w)))) in
  currentAccount w' = session /\
  ((exists a, session = Some a /\ admitted a = true /\
      calendarTools w' = true /\ teamsTools w' = true /\
      ((connectResult = Ok tt /\ connected w' = true /\ exitCode w' = exitCode w) \/
       ((exists e, connectResult = Throw e) /\ exitCode w' = Some 1))) \/
   (calendarTools w' = calendarTools w /\ teamsTools w' = teamsTools w /\
    connected w' = connected w /\ exitCode w' = Some 1)).
Proof.
  intros w' session. subst w' session.
  unfold start, tryCatch, bind, log, modify. simpl.
  set (w0 := logLine _ (logLine _ w)).
  pose proof (authenticate_serverPart accounts silent events w0) as Hs.
  apply serverPart_eq in Hs. destruct Hs as (Hc & Ht & Hn & Hx).
  destruct (authenticate accounts silent events w0) as [[[]|err] w1]; simpl in *.
  2: { split; [reflexivity|]. right. auto. }
  destruct (validateTenant_run w1) as [l1 ->]. simpl.
  destruct (currentAccount w1) as [a|] eqn:Ea; simpl.
  2: { split; [simpl; rewrite Ea; reflexivity|]. right. auto. }
  destruct (String.eqb (tenantId a) expectedTenantId) eqn:Et; simpl.
  2: { split; [simpl; rewrite Ea; reflexivity|]. right. auto. }
  destruct (validateUser_run (logLine l1 w1)) as [l2 ->]. simpl. rewrite Ea.
  destruct (endsWith (username a) requiredDomain) eqn:Eu; simpl.
  2: { split; [simpl; rewrite Ea; reflexivity|]. right. auto. }
  unfold getGraphClient, getCurrentUser, bind, gets, modify, ret, external. simpl.
  assert (Ha : admitted a = true) by (unfold admitted; rewrite Et, Eu; reflexivity).
  destruct (graphClient w1); simpl; destruct connectResult as [[]|e]; simpl;
    rewrite ?Ea; simpl;
    (split; [simpl; rewrite ?Ea; reflexivity|]); left; exists a; repeat split; eauto.
Qed.

(** C3, as the code has it.  The provider holds its Session in one field,
    [currentAccount]; the two checks leave it in place, whatever they
    answer.  It is [start] that acts on the answers: the tools are built only
    with a Session that passes both checks, the start-up goes on without an
    exit only with such a Session, and with a Session that fails a check, or
    without one, the process exits with status 1, no tool is built, and the
    Session that the login left is still in the provider. *)
Theorem admission_gates_startup (accounts : list AccountInfo)
    (silent : result string) (events : list Event) (connectResult : result unit)
    (w : World) :
  let w' := snd (start accounts silent events connectResult w) in
  (forall v, currentAccount (snd (validateTenant v)) = currentAccount v /\
             currentAccount (snd (validateUser v)) = currentAccount v) /\
  (calendarTools w = false -> calendarTools w' = true ->
   exists a, currentAccount w' = Some a /\ admitted a = true) /\
  (exitCode w = None -> exitCode w' = None ->
   connected w' = true /\ calendarTools w' = true /\ teamsTools w' = true /\
   exists a, currentAccount w' = Some a /\ admitted a = true) /\
  ((forall a, currentAccount w' = Some a -> admitted a = false) ->
   exitCode w' = Some 1 /\ calendarTools w' = calendarTools w /\
   teamsTools w' = teamsTools w /\ connected w' = connected w).
Proof.
  intros w'. subst w'.
  destruct (start_cases accounts silent events connectResult w) as (Hsess & Hcases).
  simpl in Hsess, Hcases. rewrite <- Hsess in Hcases. clear Hsess.
  split; [exact validate_keeps_session|]. split; [|split].
  - intros Hfalse Htrue.
    destruct Hcases as [(a & Hs & Ha & _) | (Hc & _)]; [eauto | congruence].
  - intros Hnone Hnone'.
    destruct Hcases as [(a & Hs & Ha & Hc & Ht & [(_ & Hn & _) | (_ & Hx)]) | (_ & _ & _ & Hx)];
      try congruence.
    repeat split; eauto.
  - intros Hfail.
    destruct Hcases as [(a & Hs & Ha & _) | (Hc & Ht & Hn & Hx)]; [|auto].
    rewrite (Hfail a Hs) in Ha. discriminate.
Qed.

Lemma admission_gates_startup_witness :
  let w' := snd (start [outsider] (Ok "token") [] (Ok tt) initialWorld) in
  exitCode w' = Some 1 /\ calendarTools w' = false /\
  currentAccount w' = Some outsider.
Proof.
  pose proof (admission_gates_startup [outsider] (Ok "token") [] (Ok tt) initialWorld)
    as (_ & _ & _ & H).
  assert (Hfail : forall a,
             currentAccount (snd (start [outsider] (Ok "token") [] (Ok tt) initialWorld))
               = Some a -> admitted a = false).
  { intros a E. vm_compute in E. inversion E. reflexivity. }
  destruct (H Hfail) as (Hx & Hc & _).
  split; [exact Hx|]. split; [exact Hc | reflexivity].
Defined.

(** C3, as the specification has it, fails: a Session that fails admission
    is reachable and stays after the checks have answered, so not every
    Session held has passed admission. *)
Lemma session_kept_without_admission :
  ~ (forall w, reachable w -> sessionAdmitted w).
Proof.
  intros H.
  specialize (H (fold_left perform
                   [CallAuthenticate [outsider] (Ok "token") [];
                    CallValidateTenant; CallValidateUser] initialWorld)
                (ex_intro _ _ eq_refl) outsider eq_refl).
  vm_compute in H. discriminate H.
Qed.

End AuthFacts.

(** * Further properties of the resolver *)

Module CalendarMore.

Import Calendar Samples CalendarFacts.

(** X1. [isTimeFree] answers [false] exactly when the schedule has a truthy
    [freeBusyViewInfo], the end of the slot, start plus duration, is in the
    range of [Date], and one of the busy intervals has valid dates and
    overlaps the half-open slot: it begins before the slot ends and ends
    after the slot begins.  An interval that ends at the start of the slot,
    or begins at its end, is no conflict; neither is any interval when the
    end of the slot is an Invalid Date. *)
Theorem isTimeFree_false_iff_overlap (s : Schedule) (t : Date) (d : Z) :
  isTimeFree s t d = false <->
  truthy (freeBusyViewInfo s) = true /\
  - maxTime <= t + d * 60 * 1000 <= maxTime /\
  exists b busyFrom busyTo,
    In b (match busyTimes s with Some l => l | None => [] end) /\
    busyStart b = ValidDate busyFrom /\ busyEnd b = ValidDate busyTo /\
    t < busyTo /\ busyFrom < t + d * 60 * 1000.
Proof.
  unfold isTimeFree. destruct (truthy (freeBusyViewInfo s)); simpl.
  - rewrite noConflict_false_iff. split.
    + intros (b & Hin & H). apply overlap_iff in H.
      destruct H as (bs & be & e & H1 & H2 & H3 & H4 & H5).
      destruct (newDate_cases (t + d * 60 * 1000)) as [[Hr E] | [Hr E]];
        rewrite E in H3; [|discriminate].
      inversion H3; subst e.
      split; [reflexivity|]. split; [exact Hr|]. exists b, bs, be. auto.
    + intros (_ & Hr & b & bs & be & Hin & H1 & H2 & H4 & H5).
      exists b. split; [exact Hin|]. apply overlap_iff.
      exists bs, be, (t + d * 60 * 1000). rewrite (newDate_valid _ Hr). auto.
  - split; [discriminate | intros [H _]; discriminate].
Qed.

(** *** What the loop pushes *)

Lemma collectSlots_starts (tz : Z) (schedules : list Schedule) (duration : Z)
    (endDate : Date) (attendees : list string) (startDate : Date) :
  StronglySorted (fun a b => start a < start b)
    (collectSlots tz schedules duration endDate attendees startDate) /\
  Forall (fun s => startDate <= start s)
    (collectSlots tz schedules duration endDate attendees startDate).
Proof.
  functional induction (collectSlots tz schedules duration endDate attendees startDate);
    try (split; constructor);
    try (match goal with IH : _ /\ _ |- _ => destruct IH as [IH1 IH2] end);
    try (split; [exact IH1|]; eapply Forall_impl; [|exact IH2];
         intros s Hs; unfold nextTick, msPerMinute, Date in *; simpl in *; lia).
  - exact IH1.
  - eapply Forall_impl; [|exact IH2].
    intros s Hs. unfold nextTick, msPerMinute, Date in *. simpl in *. lia.
  - simpl. unfold Date. lia.
  - eapply Forall_impl; [|exact IH2].
    intros s Hs. unfold nextTick, msPerMinute, Date in *. simpl in *. lia.
Qed.

Lemma StronglySorted_lt_NoDup (l : list Slot) :
  StronglySorted (fun a b => start a < start b) l -> NoDup (map start l).
Proof.
  induction 1 as [|a l Hl IH Ha]; simpl; constructor; [|exact IH].
  intros Hin. apply in_map_iff in Hin. destruct Hin as (b & Hb & Hin).
  rewrite Forall_forall in Ha. specialize (Ha b Hin). unfold Date in *. lia.
Qed.

Lemma collectSlots_NoDup (tz : Z) (schedules : list Schedule) (duration : Z)
    (endDate : Date) (attendees : list string) (startDate : Date) :
  NoDup (map start (collectSlots tz schedules duration endDate attendees startDate)).
Proof. apply StronglySorted_lt_NoDup, collectSlots_starts. Qed.

Lemma sorted_NoDup (tz : Z) (schedules : list Schedule) (duration : Z)
    (endDate : Date) (attendees : list string) (startDate : Date) :
  NoDup (map start
    (sortBy compareSlots
       (collectSlots tz schedules duration endDate attendees startDate))).
Proof.
  eapply Permutation_NoDup; [|apply collectSlots_NoDup].
  apply Permutation_map, sortBy_perm.
Qed.

(** X2. Every slot that is returned starts on the 30-minute grid of the
    window start, inside the window, and ends at [new Date(start + duration)]:
    when that sum is in the range of [Date] the slot lasts the duration and
    ends no later than the window, otherwise its end is an Invalid Date.  It
    carries the number of free schedules at its start, which lies between
    [Math.ceil(attendees.length / 2)] and the number of schedules. *)
Theorem returned_slot_shape (tz : Z) (schedules : list Schedule) (duration : Z)
    (startDate endDate : Date) (attendees : list string) (s : Slot) :
  In s (findMeetingSlots tz schedules duration startDate endDate attendees) ->
  end_ s = newDate (start s + duration * 60 * 1000) /\
  (- maxTime <= start s + duration * 60 * 1000 <= maxTime ->
   end_ s = ValidDate (start s + duration * 60 * 1000) /\
   start s + duration * 60 * 1000 <= endDate) /\
  (start s + duration * 60 * 1000 < - maxTime \/
   maxTime < start s + duration * 60 * 1000 -> end_ s = InvalidDate) /\
  (exists k, 0 <= k /\ start s = startDate + k * 1800000) /\
  startDate <= start s < endDate /\
  availableAttendees s = countAvailable schedules (start s) duration 0 /\
  ceilHalf (Z.of_nat (List.length attendees)) <= availableAttendees s
    <= Z.of_nat (List.length schedules).
Proof.
  intros Hin. apply findMeetingSlots_incl, collectSlots_In in Hin.
  destruct Hin as (k & Hk & (Hlt & Hw) & _ & Hc & ->). simpl.
  pose proof (tick_mono startDate k Hk) as Hm.
  pose proof (countAvailable_le_length schedules (tick startDate k) duration) as Hle.
  assert (E : dateGtb (newDate (tick startDate k + duration * 60 * 1000)) endDate
              = false) by (apply Hw; lia).
  split; [reflexivity|]. split; [|split; [|split; [|split; [|split]]]].
  - intros Hr. split; [apply newDate_valid; exact Hr|].
    destruct (Z_le_gt_dec (tick startDate k + duration * 60 * 1000) endDate)
      as [Hle'|Hgt]; [exact Hle'|].
    assert (E' : dateGtb (newDate (tick startDate k + duration * 60 * 1000)) endDate
                 = true) by (apply dateGtb_newDate; timeLia).
    congruence.
  - intros Hr.
    destruct (newDate_cases (tick startDate k + duration * 60 * 1000))
      as [[Hr' _] | [_ E']]; [timeLia | exact E'].
  - exists k. split; [exact Hk | reflexivity].
  - unfold Date in *. lia.
  - reflexivity.
  - lia.
Qed.

Lemma returned_slot_shape_witness :
  let s := mkSlot monday9 (ValidDate (monday9 + 1800000)) 2 in
  end_ s = newDate (start s + 30 * 60 * 1000) /\
  ceilHalf 3 <= availableAttendees s <= 3.
Proof.
  assert (Hin : In (mkSlot monday9 (ValidDate (monday9 + 1800000)) 2)
                  (findMeetingSlots 0 threeSchedules 30 monday9 (monday9 + 7200000)
                     threeAttendees))
    by (vm_compute; right; right; right; left; reflexivity).
  destruct (returned_slot_shape 0 threeSchedules 30 monday9 (monday9 + 7200000)
              threeAttendees _ Hin) as (H1 & _ & _ & _ & _ & _ & H5).
  split; [exact H1 | exact H5].
Defined.

(** X3. No two slots that are returned start at the same instant. *)
Theorem returned_starts_distinct (tz : Z) (schedules : list Schedule) (duration : Z)
    (startDate endDate : Date) (attendees : list string) :
  NoDup (map start (findMeetingSlots tz schedules duration startDate endDate attendees)).
Proof.
  unfold findMeetingSlots, slice0.
  pose proof (sorted_NoDup tz schedules duration endDate attendees startDate) as H.
  rewrite <- (firstn_skipn 10 (sortBy compareSlots _)) in H.
  rewrite map_app in H. apply NoDup_app_remove_r in H. exact H.
Qed.

(** *** The ten best *)

Lemma StronglySorted_app_cross {A : Type} (R : A -> A -> Prop) (l1 l2 : list A) :
  StronglySorted R (l1 ++ l2) -> forall x y, In x l1 -> In y l2 -> R x y.
Proof.
  induction l1 as [|a l1 IH]; simpl; intros H x y Hx Hy; [contradiction|].
  apply StronglySorted_inv in H. destruct H as [Hs Ha].
  destruct Hx as [<- | Hx].
  - rewrite Forall_forall in Ha. apply Ha, in_or_app. right. exact Hy.
  - apply IH; assumption.
Qed.

Lemma NoDup_app_disjoint {A : Type} (l1 l2 : list A) :
  NoDup (l1 ++ l2) -> forall a, In a l1 -> ~ In a l2.
Proof.
  induction l1 as [|b l1 IH]; simpl; intros H a Ha Hin; [contradiction|].
  inversion H as [|? ? Hnotin Hnd]; subst. destruct Ha as [<- | Ha].
  - apply Hnotin, in_or_app. right. exact Hin.
  - exact (IH Hnd a Ha Hin).
Qed.

(** X4. The list that is returned holds as many slots as were retained, up
    to ten, and they are the best ones: a slot that is returned has more
    available attendees than any retained slot that is left out, or as many
    and an earlier start. *)
Theorem returned_are_the_best (tz : Z) (schedules : list Schedule) (duration : Z)
    (startDate endDate : Date) (attendees : list string) :
  let retained := collectSlots tz schedules duration endDate attendees startDate in
  let returned := findMeetingSlots tz schedules duration startDate endDate attendees in
  List.length returned = Nat.min 10 (List.length retained) /\
  (forall s s', In s returned -> In s' retained -> ~ In s' returned ->
     availableAttendees s > availableAttendees s' \/
     (availableAttendees s = availableAttendees s' /\ start s < start s')).
Proof.
  intros retained returned. subst returned. unfold findMeetingSlots, slice0.
  fold retained. set (sorted := sortBy compareSlots retained).
  split.
  - rewrite length_firstn. unfold sorted.
    rewrite <- (Permutation_length (sortBy_perm compareSlots retained)). reflexivity.
  - intros s s' Hs Hs' Hout.
    assert (Hin' : In s' (skipn 10 sorted)).
    { assert (H : In s' sorted)
        by (eapply Permutation_in; [apply sortBy_perm | exact Hs']).
      rewrite <- (firstn_skipn 10 sorted) in H. apply in_app_or in H.
      destruct H as [H | H]; [contradiction | exact H]. }
    assert (Hsorted : StronglySorted rankedBefore (firstn 10 sorted ++ skipn 10 sorted)).
    { rewrite firstn_skipn. apply sortBy_sorted;
        [exact rankedBefore_trans | exact compareSlots_le | exact compareSlots_gt]. }
    pose proof (StronglySorted_app_cross _ _ _ Hsorted s s' Hs Hin') as Hr.
    assert (Hne : start s <> start s').
    { pose proof (sorted_NoDup tz schedules duration endDate attendees startDate) as Hnd.
      fold retained in Hnd. fold sorted in Hnd.
      rewrite <- (firstn_skipn 10 sorted), map_app in Hnd.
      intros E. apply (NoDup_app_disjoint _ _ Hnd (start s)).
      - apply in_map. exact Hs.
      - rewrite E. apply in_map. exact Hin'. }
    unfold rankedBefore in Hr. unfold Date in *. lia.
Qed.

Lemma returned_are_the_best_witness :
  let best := mkSlot (monday9 + 1800000) (monday9 + 3600000) 3 in
  let dropped := mkSlot monday9 (monday9 + 1800000) 2 in
  availableAttendees best > availableAttendees dropped \/
  (availableAttendees best = availableAttendees dropped /\ start best < start dropped).
Proof.
  destruct (returned_are_the_best 0 threeSchedules 30 monday9 (monday9 + 8 * msPerHour)
              threeAttendees) as [_ H].
  apply H.
  - vm_compute. left. reflexivity.
  - vm_compute. left. reflexivity.
  - vm_compute. intuition discriminate.
Defined.

(** *** Windows without a business tick *)

(** X5. When no tick of the window falls in business hours on a weekday, no
    slot is returned, whatever the schedules say. *)
Theorem no_business_tick_no_slot (tz : Z) (schedules : list Schedule) (duration : Z)
    (startDate endDate : Date) (attendees : list string) :
  (forall k, 0 <= k -> tick startDate k < endDate ->
     getHours tz (tick startDate k) < 9 \/ 17 <= getHours tz (tick startDate k) \/
     getDay tz (tick startDate k) = 0 \/ getDay tz (tick startDate k) = 6) ->
  findMeetingSlots tz schedules duration startDate endDate attendees = [].
Proof.
  intros H.
  destruct (findMeetingSlots tz schedules duration startDate endDate attendees)
    as [|s l] eqn:E; [reflexivity|].
  assert (Hin : In s (findMeetingSlots tz schedules duration startDate endDate attendees))
    by (rewrite E; left; reflexivity).
  apply findMeetingSlots_incl, collectSlots_In in Hin.
  destruct Hin as (k & Hk & (Hlt & _) & (Hh & Hd0 & Hd6) & _).
  specialize (H k Hk Hlt). lia.
Qed.

Lemma no_business_tick_no_slot_witness :
  findMeetingSlots 0 threeSchedules 30 (monday9 - 2 * msPerDay)
    (monday9 - 2 * msPerDay + 7200000) threeAttendees = [].
Proof.
  apply no_business_tick_no_slot. intros k Hk Hlt.
  assert (Hcases : k = 0 \/ k = 1 \/ k = 2 \/ k = 3)
    by (unfold tick, monday9, msPerDay, msPerHour, msPerMinute, Date in *; lia).
  destruct Hcases as [-> | [-> | [-> | ->]]]; right; right; right; reflexivity.
Defined.

(** *** Schedules without data *)

Lemma sortBy_sorted_id {A : Type} (cmp : A -> A -> Z) (l : list A) :
  StronglySorted (fun a b => cmp a b <= 0) l -> sortBy cmp l = l.
Proof.
  induction 1 as [|a l Hl IH Ha]; simpl; [reflexivity|].
  fold (sortBy cmp l). rewrite IH. destruct l as [|b r]; [reflexivity|]. simpl.
  inversion Ha as [|? ? Hab _]; subst.
  apply Z.leb_le in Hab. rewrite Hab. reflexivity.
Qed.

Lemma countAvailable_all_free (schedules : list Schedule) (t : Date) (d c : Z) :
  Forall (fun s => noScheduleData s = true) schedules ->
  countAvailable schedules t d c = c + Z.of_nat (List.length schedules).
Proof.
  intros H. revert c. induction H as [|s l Hs Hl IH]; intros c; simpl; [lia|].
  rewrite (isTimeFree_noScheduleData s t d Hs), IH.
  change (Z.of_nat (S (List.length l))) with (Z.of_nat (1 + List.length l)). lia.
Qed.

(** X6. When no schedule carries data, every slot that is retained counts
    all the schedules as free, and the list that is returned is the first
    ten retained slots in chronological order. *)
Theorem no_data_chronological (tz : Z) (schedules : list Schedule) (duration : Z)
    (startDate endDate : Date) (attendees : list string) :
  Forall (fun s => noScheduleData s = true) schedules ->
  let retained := collectSlots tz schedules duration endDate attendees startDate in
  Forall (fun slot => availableAttendees slot = Z.of_nat (List.length schedules))
    retained /\
  findMeetingSlots tz schedules duration startDate endDate attendees =
    firstn 10 retained /\
  StronglySorted (fun a b => start a < start b) retained.
Proof.
  intros Hnone retained.
  assert (Hall : Forall (fun slot =>
                   availableAttendees slot = Z.of_nat (List.length schedules)) retained).
  { apply Forall_forall. intros slot Hin. apply collectSlots_In in Hin.
    destruct Hin as (k & _ & _ & _ & _ & ->). simpl.
    rewrite countAvailable_all_free by exact Hnone. lia. }
  pose proof (collectSlots_starts tz schedules duration endDate attendees startDate)
    as [Hsorted _].
  fold retained in Hsorted.
  split; [exact Hall|]. split; [|exact Hsorted].
  unfold findMeetingSlots, slice0. fold retained. f_equal.
  apply sortBy_sorted_id.
  clear - Hall Hsorted. induction Hsorted as [|a l Hl IH Ha]; constructor.
  - apply IH. inversion Hall; assumption.
  - inversion Hall as [|? ? Ea Hrest]; subst.
    rewrite Forall_forall in *. intros b Hb.
    specialize (Ha b Hb). specialize (Hrest b Hb).
    unfold compareSlots. rewrite Ea, Hrest, Z.eqb_refl. simpl. unfold Date in *. lia.
Qed.

Lemma no_data_chronological_witness :
  findMeetingSlots 0 [silentSchedule; mutedBusy] 30 monday9 (monday9 + 7200000)
    threeAttendees =
  firstn 10 (collectSlots 0 [silentSchedule; mutedBusy] 30 (monday9 + 7200000)
               threeAttendees monday9).
Proof.
  apply (no_data_chronological 0 [silentSchedule; mutedBusy] 30 monday9
           (monday9 + 7200000) threeAttendees).
  repeat constructor.
Defined.

End CalendarMore.

(** * Further properties of the provider *)

Module AuthMore.

Import Auth Server Samples AuthFacts.
Local Open Scope string_scope.

(** *** Suffixes *)

Lemma length_append (p q : string) :
  String.length (p ++ q) = (String.length p + String.length q)%nat.
Proof. induction p as [|c p IH]; simpl; [reflexivity | rewrite IH; reflexivity]. Qed.

Lemma substring_append_skip (p q : string) (m : nat) :
  substring (String.length p) m (p ++ q) = substring 0 m q.
Proof. induction p as [|c p IH]; simpl; [reflexivity | exact IH]. Qed.

Lemma substring_whole (q : string) : substring 0 (String.length q) q = q.
Proof. induction q as [|c q IH]; simpl; [reflexivity | rewrite IH; reflexivity]. Qed.

Lemma substring_split (s : string) (k : nat) :
  (k <= String.length s)%nat ->
  s = substring 0 k s ++ substring k (String.length s - k) s.
Proof.
  revert k. induction s as [|c s IH]; intros k Hk.
  - destruct k; reflexivity.
  - destruct k as [|k].
    + simpl. rewrite substring_whole. reflexivity.
    + simpl in *. f_equal. apply IH. lia.
Qed.

Lemma endsWith_iff (s suffix : string) :
  endsWith s suffix = true <-> exists p, s = p ++ suffix.
Proof.
  unfold endsWith. split.
  - destruct (Nat.leb_spec (String.length suffix) (String.length s)) as [Hle|];
      [|discriminate].
    intros E. apply String.eqb_eq in E.
    exists (substring 0 (String.length s - String.length suffix) s).
    pose proof (substring_split s (String.length s - String.length suffix)
                  ltac:(lia)) as H.
    replace (String.length s - (String.length s - String.length suffix))%nat
      with (String.length suffix) in H by lia.
    rewrite E in H. exact H.
  - intros [p ->]. rewrite length_append.
    destruct (Nat.leb_spec (String.length suffix) (String.length p + String.length suffix))
      as [_|]; [|lia].
    replace (String.length p + String.length suffix - String.length suffix)%nat
      with (String.length p) by lia.
    rewrite substring_append_skip, substring_whole. apply String.eqb_refl.
Qed.

(** X7. Both admission checks answer [true] exactly when the provider holds
    a Session whose tenant identifier is the configured one and whose
    username is some text followed by [@timelarp.com]; the comparison is by
    characters, so another letter case does not pass. *)
Theorem checks_pass_iff (w : World) :
  (fst (validateTenant w) = Ok true /\ fst (validateUser w) = Ok true) <->
  exists a p,
    currentAccount w = Some a /\
    tenantId a = "6b104499-c49f-45dc-b3a2-df95efd6eeb4" /\
    username a = p ++ "@timelarp.com".
Proof.
  destruct (validateTenant_run w) as [l ->].
  destruct (validateUser_run w) as [l' ->]. simpl.
  destruct (currentAccount w) as [a|].
  - split.
    + intros [Ht Hu]. injection Ht as Ht. injection Hu as Hu.
      apply String.eqb_eq in Ht. apply endsWith_iff in Hu. destruct Hu as [p Hp].
      exists a, p. auto.
    + intros (a' & p & Ha & Ht & Hu). injection Ha as <-. split; f_equal.
      * apply String.eqb_eq. exact Ht.
      * apply endsWith_iff. exists p. exact Hu.
  - split; [intros [H _]; discriminate | intros (a & p & H & _); discriminate].
Qed.

(** *** Signing out *)

Lemma signOut_run (k u : result unit) (w : World) :
  fst (signOut k u w) = Ok tt /\
  currentAccount (snd (signOut k u w)) = None /\
  (currentAccount w = None -> snd (signOut k u w) = w) /\
  (currentAccount w <> None -> graphClient (snd (signOut k u w)) = false) /\
  listening (snd (signOut k u w)) = listening w.
Proof.
  unfold signOut, tryCatch, bind, gets, accountProperty, external, modify, log, ret.
  destruct (currentAccount w) as [a|] eqn:E; simpl.
  - rewrite E. destruct k as [[]|ek]; simpl; destruct u as [[]|eu]; simpl;
      repeat split; try reflexivity; intros; congruence.
  - repeat split; auto. congruence.
Qed.

(** X8. [signOut] never throws, whatever the keychain and the file system
    answer.  Afterwards there is no Session: both checks answer [false], the
    token callback hands an error to the Graph client without asking MSAL,
    and a second [signOut] changes nothing.  Without a Session to begin with
    it changes nothing at all. *)
Theorem signOut_clears_session (k u : result unit) (w : World) :
  let w' := snd (signOut k u w) in
  fst (signOut k u w) = Ok tt /\
  currentAccount w' = None /\
  (currentAccount w <> None -> graphClient w' = false) /\
  (currentAccount w = None -> w' = w) /\
  fst (validateTenant w') = Ok false /\
  fst (validateUser w') = Ok false /\
  (forall msalResult,
     fst (authProviderCallback msalResult w') =
     Ok (Throw "No account available for silent token acquisition")) /\
  (forall k' u', signOut k' u' w' = (Ok tt, w')).
Proof.
  intros w'. subst w'.
  destruct (signOut_run k u w) as (H1 & H2 & H3 & H4 & _).
  set (w' := snd (signOut k u w)) in *.
  split; [exact H1|]. split; [exact H2|]. split; [exact H4|]. split; [exact H3|].
  destruct (validateTenant_run w') as [l ->].
  destruct (validateUser_run w') as [l' ->]. simpl. rewrite H2.
  split; [reflexivity|]. split; [reflexivity|]. split.
  - intros m. unfold authProviderCallback, acquireTokenSilent, tryCatch, bind, gets,
      throw, log, modify, ret. simpl. rewrite H2. reflexivity.
  - intros k' u'. destruct (signOut_run k' u' w') as (Hk1 & _ & Hk3 & _).
    specialize (Hk3 H2). destruct (signOut k' u' w') as [r w'']. simpl in *.
    subst. reflexivity.
Qed.

Lemma signOut_clears_session_witness :
  let w' := snd (signOut (Throw "keychain locked") (Throw "ENOENT") outsiderWorld) in
  graphClient w' = false /\ currentAccount w' = None.
Proof.
  pose proof (signOut_clears_session (Throw "keychain locked") (Throw "ENOENT")
                outsiderWorld) as (_ & H2 & H3 & _).
  split; [apply H3; discriminate | exact H2].
Defined.

(** *** The paths of the login *)

Lemma await_settled (events : list Event) (l : Login) :
  promise l <> Pending -> await events l = l.
Proof.
  intros H. destruct events as [|e rest]; simpl; [reflexivity|].
  destruct (promise l); [contradiction | reflexivity | reflexivity].
Qed.

(** One event on a pending login: it resolves the promise, and then it is a
    redirect with a code whose exchange gave the account that is now the
    Session, or it leaves the Session as it was. *)
Lemma handle_pending (e : Event) (l : Login) :
  promise l = Pending ->
  (promise (handle e l) = Resolved /\
   listening (world (handle e l)) = false /\
   exists code account,
     e = Redirect (Some code) (Ok account) /\ noCode (Some code) = false /\
     currentAccount (world (handle e l)) = account) \/
  (promise (handle e l) <> Resolved /\
   currentAccount (world (handle e l)) = currentAccount (world l)).
Proof.
  intros Hp. destruct e as [authUrl opened | code exchange |]; unfoldHandlers.
  - right. destruct authUrl as [url|err]; simpl; [destruct opened; simpl|];
      rewrite ?Hp; simpl; split; congruence.
  - destruct (listening (world l)) eqn:El; [|right; split; congruence].
    destruct (noCode code) eqn:Ec; simpl;
      [right; rewrite Hp; simpl; split; congruence|].
    destruct exchange as [account|err]; simpl; rewrite Hp; simpl;
      [|right; split; congruence].
    left. split; [reflexivity|]. split; [reflexivity|].
    destruct code as [c|]; [|discriminate]. exists c, account. auto.
  - right. simpl. rewrite Hp. simpl. split; congruence.
Qed.

Lemma await_outcome (events : list Event) (l : Login) :
  promise l = Pending ->
  (promise (await events l) = Resolved /\
   listening (world (await events l)) = false /\
   exists code account,
     In (Redirect (Some code) (Ok account)) events /\ noCode (Some code) = false /\
     currentAccount (world (await events l)) = account) \/
  (promise (await events l) <> Resolved /\
   currentAccount (world (await events l)) = currentAccount (world l)).
Proof.
  revert l. induction events as [|e rest IH]; intros l Hp; simpl.
  - right. split; congruence.
  - rewrite Hp.
    destruct (handle_pending e l Hp)
      as [(Hr & Hl & code & account & -> & Hc & Ha) | (Hn & Ha)].
    + left. rewrite await_settled by congruence.
      split; [exact Hr|]. split; [exact Hl|]. exists code, account. simpl. auto.
    + destruct (promise (handle e l)) eqn:E.
      * destruct (IH _ E) as [(Hr & Hl & code & account & Hin & Hc & Hacc) | (Hn' & Hacc)].
        -- left. split; [exact Hr|]. split; [exact Hl|].
           exists code, account. simpl. auto.
        -- right. split; [exact Hn' | congruence].
      * contradiction.
      * right. rewrite await_settled by congruence. split; congruence.
Qed.

Lemma In_before_timer (e : Event) (events : list Event) :
  In e (events ++ [TimerFired]) -> e <> TimerFired -> In e events.
Proof.
  intros H Hne. apply in_app_or in H. destruct H as [H | [H | []]]; congruence.
Qed.

(** What the handler of an earlier login can do to the Session of a login
    whose server did not bind. *)
Lemma handleUnbound_session (e : Event) (l : Login) :
  currentAccount (world (handleUnbound e l)) = currentAccount (world l) \/
  exists code account,
    e = Redirect (Some code) (Ok account) /\ noCode (Some code) = false /\
    currentAccount (world (handleUnbound e l)) = account.
Proof.
  destruct e as [authUrl opened | code exchange |]; unfoldHandlers.
  - left. destruct authUrl as [url|err]; simpl; [destruct opened; simpl|];
      destruct (promise l); reflexivity.
  - simpl. destruct (listening (world l)); [|left; reflexivity].
    destruct (noCode code) eqn:Ec; simpl; [left; destruct (promise l); reflexivity|].
    destruct exchange as [account|err]; simpl;
      [|left; destruct (promise l); reflexivity].
    right. destruct code as [c|]; [|discriminate]. exists c, account.
    split; [reflexivity|]. split; [exact Ec|]. destruct (promise l); reflexivity.
  - left. simpl. destruct (promise l); reflexivity.
Qed.

Lemma awaitUnbound_session (events : list Event) (l : Login) :
  currentAccount (world (awaitUnbound events l)) = currentAccount (world l) \/
  exists code account,
    In (Redirect (Some code) (Ok account)) events /\ noCode (Some code) = false /\
    currentAccount (world (awaitUnbound events l)) = account.
Proof.
  revert l. induction events as [|e rest IH]; intros l; simpl; [left; reflexivity|].
  destruct (promise l); try (left; reflexivity).
  destruct (IH (handleUnbound e l)) as [E | (code & account & Hin & Hc & Ha)].
  - rewrite E.
    destruct (handleUnbound_session e l) as [E' | (code & account & -> & Hc & Ha)];
      [left; exact E'|].
    right. exists code, account. auto.
  - right. exists code, account. auto.
Qed.

(** The two outcomes of the login. *)
Lemma interactiveLogin_outcome (events : list Event) (w : World) :
  (fst (interactiveLogin events w) = Ok tt /\
   listening w = false /\
   listening (snd (interactiveLogin events w)) = false /\
   exists code account,
     In (Redirect (Some code) (Ok account)) events /\ noCode (Some code) = false /\
     currentAccount (snd (interactiveLogin events w)) = account) \/
  ((exists error, fst (interactiveLogin events w) = Throw error) /\
   (currentAccount (snd (interactiveLogin events w)) = currentAccount w \/
    listening w = true /\
    exists code account,
      In (Redirect (Some code) (Ok account)) events /\ noCode (Some code) = false /\
      currentAccount (snd (interactiveLogin events w)) = account)).
Proof.
  rewrite interactiveLogin_trace.
  pose proof (awaitLogin_settles events w) as Hs. revert Hs.
  unfold awaitLogin. destruct (listening w) eqn:El.
  - set (l := awaitUnbound (events ++ [TimerFired]) (mkLogin w Pending)).
    intros Hs. right.
    assert (Hn : promise l <> Resolved)
      by (apply awaitUnbound_not_resolved; discriminate).
    assert (Ha : currentAccount (world l) = currentAccount w \/
                 exists code account,
                   In (Redirect (Some code) (Ok account)) events /\
                   noCode (Some code) = false /\
                   currentAccount (world l) = account).
    { destruct (awaitUnbound_session (events ++ [TimerFired]) (mkLogin w Pending))
        as [E | (code & account & Hin & Hc & Ha)]; [left; exact E|].
      right. exists code, account. split; [|auto].
      apply In_before_timer; [exact Hin | discriminate]. }
    destruct (promise l) eqn:E; try contradiction. simpl.
    split; [eauto|]. destruct Ha as [Ha | Ha]; [left; exact Ha | right; auto].
  - set (l0 := mkLogin (setListening true w) Pending).
    intros Hs.
    destruct (await_outcome (events ++ [TimerFired]) l0 eq_refl)
      as [(Hr & Hl & code & account & Hin & Hc & Ha) | (Hn & Ha)].
    + left. rewrite Hr. simpl. split; [reflexivity|]. split; [reflexivity|].
      split; [exact Hl|]. exists code, account. split; [|auto].
      apply In_before_timer; [exact Hin | discriminate].
    + right. destruct (promise (await (events ++ [TimerFired]) l0)) eqn:E;
        try contradiction; simpl; split; eauto.
Qed.

(** X9. The interactive login always settles: once the timer has fired the
    promise is resolved or rejected, and the login returns with that outcome
    in the state that the handlers have left.  It returns normally only when
    it was started with the port free, after a redirect request that carried
    a code whose exchange succeeded; the account of that exchange is then the
    Session and the listener is closed.  When it throws after a start with
    the port free, the Session is the one from before.  Started with the port
    still held by the server of an earlier login it always throws, and the
    Session is the one from before or the account of a redirect that the
    earlier handler has exchanged. *)
Theorem interactiveLogin_paths (events : list Event) (w : World) :
  let r := interactiveLogin events w in
  let l := awaitLogin (events ++ [TimerFired]) w in
  promise l <> Pending /\
  snd r = world l /\
  (fst r = Ok tt <-> promise l = Resolved) /\
  (forall error, fst r = Throw error <-> promise l = Rejected error) /\
  (fst r = Ok tt ->
   listening w = false /\ listening (snd r) = false /\
   exists code account,
     In (Redirect (Some code) (Ok account)) events /\ code <> "" /\
     currentAccount (snd r) = account) /\
  (fst r <> Ok tt ->
   (exists error, fst r = Throw error) /\
   (listening w = false -> currentAccount (snd r) = currentAccount w) /\
   (listening w = true ->
    currentAccount (snd r) = currentAccount w \/
    exists code account,
      In (Redirect (Some code) (Ok account)) events /\ code <> "" /\
      currentAccount (snd r) = account)).
Proof.
  intros r l. subst r l.
  pose proof (awaitLogin_settles events w) as Hs.
  split; [exact Hs|].
  assert (Htrace := interactiveLogin_trace events w).
  split; [|split; [|split]].
  - rewrite Htrace. destruct (promise (awaitLogin (events ++ [TimerFired]) w));
      reflexivity.
  - rewrite Htrace. destruct (promise (awaitLogin (events ++ [TimerFired]) w));
      simpl; split; congruence.
  - intros error. rewrite Htrace.
    destruct (promise (awaitLogin (events ++ [TimerFired]) w));
      simpl; split; congruence.
  - clear Htrace Hs. destruct (interactiveLogin_outcome events w)
      as [(Hok & Hfree & Hl & code & account & Hin & Hc & Ha) | ((error & He) & Ha)].
    + split; [|intros H; contradiction].
      intros _. split; [exact Hfree|]. split; [exact Hl|]. exists code, account.
      split; [exact Hin|]. split; [|exact Ha].
      intros ->. discriminate Hc.
    + split; [intros H; congruence|]. intros _. split; [eauto|]. split.
      * intros Hfree. destruct Ha as [Ha | (Hb & _)]; [exact Ha | congruence].
      * intros _. destruct Ha as [Ha | (_ & code & account & Hin & Hc & Ha)];
          [left; exact Ha|].
        right. exists code, account. split; [exact Hin|]. split; [|exact Ha].
        intros ->. discriminate Hc.
Qed.

Lemma interactiveLogin_paths_witness :
  let r := interactiveLogin [Redirect (Some "code") (Ok (Some member))] initialWorld in
  listening (snd r) = false /\ currentAccount (snd r) = Some member.
Proof.
  pose proof (interactiveLogin_paths [Redirect (Some "code") (Ok (Some member))]
                initialWorld) as (_ & _ & _ & _ & H & _).
  destruct (H eq_refl) as (_ & Hl & _). split; [exact Hl | reflexivity].
Defined.

(** A second login while the server of a failed first login still holds the
    port: the redirect is served by the first handler, which sets the
    Session and closes its server, and the second login throws by timeout. *)
Example second_login_served_by_first :
  let first := interactiveLogin [Redirect None (Ok None)] initialWorld in
  let second := interactiveLogin [Redirect (Some "code") (Ok (Some member))]
                  (snd first) in
  listening (snd first) = true /\
  fst second = Throw timeoutMessage /\
  currentAccount (snd second) = Some member /\
  listening (snd second) = false.
Proof. repeat split. Qed.

(** *** The paths of [authenticate] *)

(** With a cached account and a silent acquisition that succeeds,
    [authenticate] returns normally with the first cached account as the
    Session; it does not start the listener and takes no notice of what
    would come on the redirect endpoint. *)
Theorem authenticate_silent_path (a : AccountInfo) (rest : list AccountInfo)
    (token : string) (events : list Event) (w : World) :
  let r := authenticate (a :: rest) (Ok token) events w in
  fst r = Ok tt /\
  currentAccount (snd r) = Some a /\
  listening (snd r) = listening w /\
  pages (snd r) = pages w /\
  r = authenticate (a :: rest) (Ok token) [] w.
Proof. repeat split. Qed.



(** X11. When [authenticate] returns normally, either the silent
    acquisition succeeded for the first cached account, which is the
    Session, or there was no cached account or the silent acquisition failed,
    and the Session is the account of a redirect whose code was exchanged,
    with the listener closed. *)
Theorem authenticate_success_cases (accounts : list AccountInfo)
    (silent : result string) (events : list Event) (w : World) :
  let r := authenticate accounts silent events w in
  fst r = Ok tt ->
  (exists a rest token,
     accounts = a :: rest /\ silent = Ok token /\ currentAccount (snd r) = Some a) \/
  ((accounts = [] \/ exists error, silent = Throw error) /\
   listening (snd r) = false /\
   exists code account,
     In (Redirect (Some code) (Ok account)) events /\ code <> "" /\
     currentAccount (snd r) = account).
Proof.
  intros r. subst r.
  unfold authenticate, acquireTokenSilent, tryCatch, bind, gets, external, modify,
    log, ret, throw.
  destruct accounts as [|a rest]; simpl.
  - intros H. right. split; [auto|].
    destruct (interactiveLogin_outcome events w)
      as [(_ & _ & Hl & code & account & Hin & Hc & Ha) | ((e & He) & _)]; [|congruence].
    split; [exact Hl|]. exists code, account. repeat split; auto.
    intros ->. discriminate Hc.
  - destruct silent as [token|err]; simpl.
    + intros _. left. exists a, rest, token. auto.
    + intros H. right. split; [eauto|].
      match goal with |- context [interactiveLogin events ?w0] =>
        destruct (interactiveLogin_outcome events w0)
          as [(_ & _ & Hl & code & account & Hin & Hc & Ha) | ((e & He) & _)]
      end; [|congruence].
      split; [exact Hl|]. exists code, account. repeat split; auto.
      intros ->. discriminate Hc.
Qed.

Lemma authenticate_success_cases_witness :
  let r := authenticate [] (Ok "token") [Redirect (Some "code") (Ok (Some member))]
             initialWorld in
  (exists a rest token,
     [] = a :: rest /\ Ok "token" = Ok token /\ currentAccount (snd r) = Some a) \/
  ((@nil AccountInfo = [] \/ exists error, Ok "token" = Throw error) /\
   listening (snd r) = false /\
   exists code account,
     In (Redirect (Some code) (Ok account))
        [Redirect (Some "code") (Ok (Some member))] /\ code <> "" /\
     currentAccount (snd r) = account).
Proof.
  apply (authenticate_success_cases [] (Ok "token")
           [Redirect (Some "code") (Ok (Some member))] initialWorld).
  reflexivity.
Defined.

(** *** After the caller has resumed *)

Lemma handle_settled (e : Event) (l : Login) :
  promise l <> Pending -> promise (handle e l) = promise l.
Proof.
  intros Hp. destruct e as [authUrl opened | code exchange |]; unfoldHandlers.
  - destruct authUrl as [url|err]; simpl; [destruct opened; simpl|];
      destruct (promise l); try reflexivity; contradiction.
  - destruct (listening (world l)); [|reflexivity].
    destruct (noCode code); simpl; [destruct (promise l); try reflexivity; contradiction|].
    destruct exchange as [account|err]; simpl;
      destruct (promise l); try reflexivity; contradiction.
  - simpl. destruct (promise l); try reflexivity; contradiction.
Qed.

Lemma handle_stays_closed (e : Event) (l : Login) :
  listening (world l) = false -> listening (world (handle e l)) = false.
Proof.
  intros Hl. destruct e as [authUrl opened | code exchange |]; unfoldHandlers.
  - destruct authUrl as [url|err]; simpl; [destruct opened; simpl|];
      destruct (promise l); exact Hl.
  - rewrite Hl. exact Hl.
  - simpl. destruct (promise l); reflexivity.
Qed.

Lemma runAll_settled (events : list Event) (l : Login) :
  promise l <> Pending -> promise (runAll events l) = promise l.
Proof.
  revert l. induction events as [|e rest IH]; intros l Hp; simpl; [reflexivity|].
  unfold runAll in IH. rewrite IH; rewrite handle_settled by exact Hp; auto.
Qed.

Lemma runAll_stays_closed (events : list Event) (l : Login) :
  listening (world l) = false -> listening (world (runAll events l)) = false.
Proof.
  revert l. induction events as [|e rest IH]; intros l Hl; simpl; [exact Hl|].
  apply IH, handle_stays_closed, Hl.
Qed.

(** X12. The handlers go on running after the caller has resumed.  Whatever
    comes then, the outcome of the login stays the one of the first
    settlement, a listener that is closed is not opened again, and once the
    timer has fired the listener is closed, also on the paths that returned
    with the listener bound. *)
Theorem late_events (events : list Event) (l : Login) :
  promise (runAll events l) = promise (await events l) /\
  (promise l <> Pending -> promise (runAll events l) = promise l) /\
  (listening (world l) = false -> listening (world (runAll events l)) = false) /\
  (In TimerFired events -> listening (world (runAll events l)) = false).
Proof.
  split; [|split; [apply runAll_settled | split; [apply runAll_stays_closed|]]].
  - revert l. induction events as [|e rest IH]; intros l; simpl; [reflexivity|].
    destruct (promise l) eqn:E.
    + apply IH.
    + fold (runAll rest (handle e l)).
      rewrite runAll_settled; rewrite handle_settled; congruence.
    + fold (runAll rest (handle e l)).
      rewrite runAll_settled; rewrite handle_settled; congruence.
  - revert l. induction events as [|e rest IH]; intros l Hin; simpl; [contradiction|].
    destruct Hin as [-> | Hin].
    + apply runAll_stays_closed. unfoldHandlers. simpl.
      destruct (promise l); reflexivity.
    + apply IH, Hin.
Qed.

Lemma late_events_witness :
  let l := runAll [Redirect None (Ok None); TimerFired]
             (mkLogin (setListening true initialWorld) Pending) in
  promise l = Rejected "No authorization code received" /\
  listening (world l) = false.
Proof.
  pose proof (late_events [Redirect None (Ok None); TimerFired]
                (mkLogin (setListening true initialWorld) Pending)) as (H1 & _ & _ & H4).
  split; [rewrite H1; reflexivity | apply H4; right; left; reflexivity].
Defined.

(** *** Saving and loading the token cache *)

Section CacheRoundTrip.

Variable Cache : Type.
Variable deserialize : Cache -> string -> result Cache.
Variable serialize : Cache -> result string.

(** X13. A cache that has changed and that the file system lets be written
    is on the disk after [afterCacheAccess], in a directory that exists, also
    when there was none before.  A later [beforeCacheAccess] on that disk
    hands exactly the saved text to [deserialize] and takes the cache it
    answers; if [deserialize] throws, the cache in memory stays. *)
Theorem saved_cache_is_loaded (io io' : IoFaults) (st fresh : PluginState Cache)
    (data : string) :
  hasChanged Cache st = true ->
  mkdirFault io = false -> writeFault io = false ->
  serialize (tokenCache Cache st) = Ok data ->
  readFault io' = false ->
  disk Cache fresh = disk Cache (snd (afterCacheAccess Cache serialize io st)) ->
  disk Cache (snd (afterCacheAccess Cache serialize io st)) = mkDisk true (Some data) /\
  tokenCache Cache (snd (beforeCacheAccess Cache deserialize io' fresh)) =
    match deserialize (tokenCache Cache fresh) data with
    | Ok c => c
    | Throw _ => tokenCache Cache fresh
    end.
Proof.
  intros Hch Hmk Hwr Hser Hrd Hdisk.
  assert (Hafter : disk Cache (snd (afterCacheAccess Cache serialize io st)) =
                   mkDisk true (Some data)).
  { unfold afterCacheAccess, tryCatch, bind, gets, mkdir, tokenCacheSerialize,
      writeFile, pluginLog, modify, Auth.withLine.
    rewrite Hch. simpl. rewrite Hmk. simpl. rewrite Hser. simpl. rewrite Hwr. simpl.
    reflexivity. }
  split; [exact Hafter|].
  rewrite Hafter in Hdisk.
  unfold beforeCacheAccess, tryCatch, bind, readFile, tokenCacheDeserialize,
    pluginLog, modify, Auth.withLine.
  rewrite Hrd, Hdisk. simpl.
  destruct (deserialize (tokenCache Cache fresh) data); reflexivity.
Qed.

End CacheRoundTrip.

Lemma saved_cache_is_loaded_witness :
  let st := mkPluginState string "blob" true (mkDisk false None) [] in
  let after := snd (afterCacheAccess string blobSerialize noFaults st) in
  disk string after = mkDisk true (Some "blob") /\
  tokenCache string
    (snd (beforeCacheAccess string blobDeserialize noFaults
            (mkPluginState string "" false (disk string after) []))) = "blob".
Proof.
  apply (saved_cache_is_loaded string blobDeserialize blobSerialize noFaults noFaults
           (mkPluginState string "blob" true (mkDisk false None) [])
           (mkPluginState string "" false (mkDisk true (Some "blob")) []) "blob");
    reflexivity.
Defined.

End AuthMore.

(** * Properties of the tools and of their dispatch *)

Module ToolsMore.

Import Auth Server Graph Teams Samples AuthFacts AuthMore.
Local Open Scope string_scope.

(** *** The tool call handler *)

(** X14. The handler of tool calls never throws.  Until both tool objects
    are set it answers every call with the same error and runs no tool.
    Afterwards the tools it runs are exactly the five that are listed, each
    name running the method of its place; a response of the method is passed
    on, an error it throws becomes an error response; any other name gets the
    unknown-tool error. *)
Theorem callTool_dispatch (runs : ToolRuns) (name : string) (w : World) :
  (exists response, fst (callTool runs name w) = Ok response) /\
  (calendarTools w = false \/ teamsTools w = false ->
   callTool runs name w = (Ok notInitialized, w)) /\
  (calendarTools w = true -> teamsTools w = true ->
   (~ In name listedTools -> callTool runs name w = (Ok (unknownTool name), w)) /\
   (forall i, (i < 5)%nat -> name = nth i listedTools "" ->
      fst (callTool runs name w) =
      Ok match nth i (runsOf runs) (Throw "") with
         | Ok response => response
         | Throw error => toolFailure name error
         end)).
Proof.
  unfold callTool, tryCatch, bind, gets, external, log, modify, ret.
  destruct (calendarTools w) eqn:Ec; destruct (teamsTools w) eqn:Et; simpl;
    try (split; [eauto|]; split; [reflexivity|]; intros; discriminate).
  split; [|split; [intros [H|H]; discriminate|]].
  - repeat match goal with
           | |- context [if String.eqb ?a ?b then _ else _] =>
               destruct (String.eqb a b)
           | |- context [match ?r runs with _ => _ end] => destruct (r runs)
           end; simpl; eauto.
  - intros _ _. split.
    + intros Hnot.
      repeat match goal with
             | |- context [String.eqb name ?b] =>
                 let E := fresh "E" in
                 destruct (String.eqb name b) eqn:E;
                 [apply String.eqb_eq in E; exfalso; apply Hnot; subst name;
                  unfold listedTools; simpl; tauto|]
             end.
      reflexivity.
    + intros i Hi ->.
      do 5 (destruct i as [|i]; [simpl; destruct (_ runs); reflexivity|]). lia.
Qed.

Lemma callTool_dispatch_witness :
  callTool (mkToolRuns (Throw "boom") (Throw "") (Throw "") (Throw "") (Throw ""))
    "listChannels" (setTools initialWorld) =
  (Ok (unknownTool "listChannels"), setTools initialWorld).
Proof.
  destruct (callTool_dispatch
              (mkToolRuns (Throw "boom") (Throw "") (Throw "") (Throw "") (Throw ""))
              "listChannels" (setTools initialWorld)) as (_ & _ & H).
  destruct (H eq_refl eq_refl) as [Hunknown _]. apply Hunknown.
  unfold listedTools. simpl. intros [H1|[H1|[H1|[H1|[H1|[]]]]]]; discriminate H1.
Defined.

(** *** Stopping the server *)

(** X15. [stop] never throws and leaves no Session; its last line is the
    one of a completed stop, whatever the keychain and the file system
    answered, and the listener is as it was. *)
Theorem stop_completes (k u : result unit) (w : World) :
  let r := stop k u w in
  fst r = Ok tt /\
  currentAccount (snd r) = None /\
  last (console (snd r)) "" = "MCP Teams Connector stopped." /\
  listening (snd r) = listening w.
Proof.
  unfold stop, signOut, tryCatch, bind, gets, accountProperty, external, modify,
    log, ret. simpl.
  destruct (currentAccount w) as [a|] eqn:E; simpl.
  - rewrite E. simpl. destruct k as [[]|ek]; simpl; destruct u as [[]|eu]; simpl;
      rewrite last_last; auto.
  - rewrite last_last. auto.
Qed.

(** *** Finding or creating a chat *)

Lemma idsInclude_iff (chat : Chat) (id : string) :
  idsInclude (memberIds chat) id = true <-> isMember id chat.
Proof.
  unfold idsInclude, memberIds, isMember. rewrite existsb_exists. split.
  - intros (x & Hin & Hx). destruct (members chat) as [ms|]; [|contradiction].
    apply in_map_iff in Hin. destruct Hin as (m & <- & Hm).
    destruct (memberUserId m) as [i|] eqn:Ei; [|discriminate].
    apply String.eqb_eq in Hx. subst i. exists ms, m. auto.
  - intros (ms & m & -> & Hm & Hid). exists (Some id). split.
    + apply in_map_iff. exists m. auto.
    + apply String.eqb_refl.
Qed.

Lemma existingChat_Some (chats : list Chat) (id : string) (chat : Chat) :
  existingChat chats id = Some chat -> In chat chats /\ isMember id chat.
Proof.
  induction chats as [|c rest IH]; simpl; [discriminate|].
  destruct (idsInclude (memberIds c) id) eqn:E.
  - intros H. injection H as <-. split; [left; reflexivity|].
    apply idsInclude_iff, E.
  - intros H. destruct (IH H). auto.
Qed.

Lemma existingChat_None (chats : list Chat) (id : string) :
  existingChat chats id = None <-> forall chat, In chat chats -> ~ isMember id chat.
Proof.
  induction chats as [|c rest IH]; simpl.
  - split; [intros _ chat [] | reflexivity].
  - destruct (idsInclude (memberIds c) id) eqn:E.
    + split; [discriminate|]. intros H. exfalso.
      apply (H c); [left; reflexivity | apply idsInclude_iff, E].
    + rewrite IH. split.
      * intros H chat [<- | Hin]; [|auto].
        rewrite <- idsInclude_iff, E. discriminate.
      * intros H chat Hin. apply H. right. exact Hin.
Qed.

(** X16. Once the user and the list of chats are known, [findOrCreateChat]
    returns a chat of the list that has the user as a member if there is
    one, after its two GET requests and without creating anything; only when
    no chat of the list has the user does it POST one new chat, bound to that
    user, and return what the service answers.  When the user is not found,
    it sends nothing more and throws. *)
Theorem findOrCreateChat_cases (a : Answers) (userEmail : string) (c : Client) :
  let r := findOrCreateChat a userEmail c in
  let lookups := [mkRequest "GET" ("/users/" ++ userEmail) NoBody;
                  mkRequest "GET" "/me/chats" NoBody] in
  (forall user chats, userLookup a = Ok user -> chatList a = Ok chats ->
     ((exists chat, In chat chats /\ isMember (userId user) chat) ->
      requests (snd r) = (requests c ++ lookups)%list /\
      exists chat, fst r = Ok chat /\ In chat chats /\ isMember (userId user) chat) /\
     ((forall chat, In chat chats -> ~ isMember (userId user) chat) ->
      requests (snd r) =
        (requests c ++ lookups ++
         [mkRequest "POST" "/chats" (NewChat (userBindOf (userId user)))])%list /\
      fst r = match chatCreate a with
              | Ok chat => Ok chat
              | Throw error =>
                  Throw ("Failed to find or create chat with " ++ userEmail ++ ": " ++ error)
              end)) /\
  (forall error, userLookup a = Throw error ->
     requests (snd r) =
       (requests c ++ [mkRequest "GET" ("/users/" ++ userEmail) NoBody])%list /\
     fst r = Throw ("Failed to find or create chat with " ++ userEmail ++ ": " ++ error)).
Proof.
  intros r lookups. subst r lookups.
  unfold findOrCreateChat, tryCatch, bind, get, post, sendRequest, clientLog, modify,
    ret, throw.
  split.
  - intros user chats Hu Hc. rewrite Hu. simpl. rewrite Hc. simpl.
    destruct (existingChat chats (userId user)) as [chat|] eqn:E; simpl.
    + apply existingChat_Some in E. destruct E as [Hin Hm]. split.
      * intros _. rewrite <- app_assoc. split; [reflexivity|]. exists chat. auto.
      * intros Hnone. exfalso. exact (Hnone chat Hin Hm).
    + split.
      * intros (chat & Hin & Hm). exfalso.
        rewrite existingChat_None in E. exact (E chat Hin Hm).
      * intros _. destruct (chatCreate a); simpl; rewrite <- !app_assoc; split; reflexivity.
  - intros error Hu. rewrite Hu. simpl. split; reflexivity.
Qed.

Lemma findOrCreateChat_cases_witness :
  let a := mkAnswers (Ok (mkUser "u-ada")) (Ok [mkChat "19:other" None; adaChat])
             (Throw "never asked") (Ok (mkSentMessage "m1")) in
  exists chat,
    fst (findOrCreateChat a "ada@timelarp.com" (mkClient [] [])) = Ok chat /\
    In chat [mkChat "19:other" None; adaChat] /\ isMember "u-ada" chat.
Proof.
  destruct (findOrCreateChat_cases
              (mkAnswers (Ok (mkUser "u-ada")) (Ok [mkChat "19:other" None; adaChat])
                 (Throw "never asked") (Ok (mkSentMessage "m1")))
              "ada@timelarp.com" (mkClient [] [])) as [H _].
  destruct (H (mkUser "u-ada") [mkChat "19:other" None; adaChat] eq_refl eq_refl)
    as [Hfound _].
  apply Hfound. exists adaChat. split; [right; left; reflexivity|].
  exists [mkMember None; mkMember (Some "u-ada")], (mkMember (Some "u-ada")).
  repeat split. right. left. reflexivity.
Defined.

(** *** Sending a message *)

Lemma prefix_iff (p s : string) : String.prefix p s = true <-> exists q, s = p ++ q.
Proof.
  revert s. induction p as [|a p IH]; intros s; destruct s as [|b s]; simpl.
  - split; [intros _; exists ""; reflexivity | reflexivity].
  - split; [intros _; exists (String b s); reflexivity | reflexivity].
  - split; [discriminate | intros [q H]; discriminate].
  - destruct (Ascii.ascii_dec a b) as [<- | Hne].
    + rewrite IH. split; intros [q H]; exists q; [rewrite H; reflexivity|].
      injection H as H. exact H.
    + split; [discriminate | intros [q H]; injection H as H1 _; congruence].
Qed.

Lemma includes_iff (s sub : string) :
  includes s sub = true <-> exists p q, s = p ++ sub ++ q.
Proof.
  induction s as [|c s IH];
    [change (includes "" sub) with (String.prefix sub "" || false)%bool
    |change (includes (String c s) sub)
       with (String.prefix sub (String c s) || includes s sub)%bool];
    rewrite orb_true_iff, prefix_iff.
  - split.
    + intros [[q H] | H]; [exists "", q; exact H | discriminate].
    + intros (p & q & H). left. destruct p; [exists q; exact H | discriminate].
  - rewrite IH. split.
    + intros [[q H] | (p & q & H)]; [exists "", q; exact H|].
      exists (String c p), q. simpl. rewrite H. reflexivity.
    + intros (p & q & H). destruct p as [|c' p]; [left; exists q; exact H|].
      right. injection H as _ H. exists p, q. exact H.
Qed.

Lemma toChannel_iff (recipient : string) (messageType : option string) :
  toChannel recipient messageType = true <->
  messageType = Some "channel" \/ exists p q, recipient = p ++ "/channels/" ++ q.
Proof.
  unfold toChannel. rewrite orb_true_iff, includes_iff. split.
  - intros [H | H]; [left | right; exact H].
    destruct messageType as [t|]; [|discriminate].
    apply String.eqb_eq in H. subst. reflexivity.
  - intros [-> | H]; [left; reflexivity | right; exact H].
Qed.

(** X17. [sendTeamsMessage] never throws: a failure comes back as an error
    response.  A message whose type is [channel], or whose recipient contains
    [/channels/] whatever its type, is one POST to the recipient path and
    nothing else, and it fails exactly when that POST fails.  Any other
    message succeeds exactly when the user is found, the chats are listed, a
    chat exists or is created, and the POST of the message succeeds; the
    message is then posted last, to that chat. *)
Theorem sendTeamsMessage_routes (a : Answers) (recipient message : string)
    (messageType : option string) (c : Client) :
  let r := sendTeamsMessage a recipient message messageType c in
  exists response,
    fst r = Ok response /\
    ((messageType = Some "channel" \/ exists p q, recipient = p ++ "/channels/" ++ q) ->
     requests (snd r) =
       (requests c ++
        [mkRequest "POST" (recipient ++ "/messages") (ChatMessage message)])%list /\
     (isError response = true <-> exists error, messagePost a = Throw error)) /\
    (~ (messageType = Some "channel" \/ exists p q, recipient = p ++ "/channels/" ++ q) ->
     (isError response = false <->
      exists user chats chat sent,
        userLookup a = Ok user /\ chatList a = Ok chats /\
        (existingChat chats (userId user) = Some chat \/
         (existingChat chats (userId user) = None /\ chatCreate a = Ok chat)) /\
        messagePost a = Ok sent /\
        last (requests (snd r)) (mkRequest "" "" NoBody) =
          mkRequest "POST" ("/chats/" ++ chatId chat ++ "/messages")
            (ChatMessage message))).
Proof.
  intros r. subst r.
  pose proof (toChannel_iff recipient messageType) as Hiff.
  unfold sendTeamsMessage, sendChannelMessage, sendChatMessage, findOrCreateChat,
    tryCatch, bind, get, post, sendRequest, clientLog, modify, ret, throw.
  simpl. destruct (toChannel recipient messageType); simpl.
  - assert (Hyes : messageType = Some "channel" \/
                   exists p q, recipient = p ++ "/channels/" ++ q)
      by (apply Hiff; reflexivity).
    destruct (messagePost a) as [sent|e] eqn:Ep; simpl;
      eexists; (split; [reflexivity|]); (split; [|intros H; contradiction]);
      intros _; (split; [reflexivity|]); simpl; split; try discriminate; eauto.
    intros [e' He']. discriminate.
  - assert (Hno : ~ (messageType = Some "channel" \/
                     exists p q, recipient = p ++ "/channels/" ++ q))
      by (intros H; apply Hiff in H; discriminate).
    destruct (userLookup a) as [user|eu] eqn:Eu; simpl.
    2: { eexists. split; [reflexivity|]. split; [intros H; contradiction|]. intros _.
         simpl. split; [discriminate|]. intros (u & cs & ch & sn & H & _). discriminate. }
    destruct (chatList a) as [chats|el] eqn:El; simpl.
    2: { eexists. split; [reflexivity|]. split; [intros H; contradiction|]. intros _.
         simpl. split; [discriminate|]. intros (u & cs & ch & sn & _ & H & _). discriminate. }
    destruct (existingChat chats (userId user)) as [chat|] eqn:Ex; simpl.
    + destruct (messagePost a) as [sent|e] eqn:Ep; simpl.
      * eexists. split; [reflexivity|]. split; [intros H; contradiction|]. intros _.
        simpl. split; [|reflexivity].
        intros _. exists user, chats, chat, sent. rewrite last_last. auto 10.
      * eexists. split; [reflexivity|]. split; [intros H; contradiction|]. intros _.
        simpl. split; [discriminate|].
        intros (u & cs & ch & sn & _ & _ & _ & H & _). discriminate.
    + destruct (chatCreate a) as [chat|ec] eqn:Ec; simpl.
      * destruct (messagePost a) as [sent|e] eqn:Ep; simpl.
        -- eexists. split; [reflexivity|]. split; [intros H; contradiction|]. intros _.
           simpl. split; [|reflexivity].
           intros _. exists user, chats, chat, sent. rewrite last_last. auto 10.
        -- eexists. split; [reflexivity|]. split; [intros H; contradiction|]. intros _.
           simpl. split; [discriminate|].
           intros (u & cs & ch & sn & _ & _ & _ & H & _). discriminate.
      * eexists. split; [reflexivity|]. split; [intros H; contradiction|]. intros _.
        simpl. split; [discriminate|].
        intros (u & cs & ch & sn & Hu & Hl & [H | [_ H]] & _).
        -- injection Hu as <-. injection Hl as <-. congruence.
        -- discriminate.
Qed.

Lemma sendTeamsMessage_routes_witness :
  let a := mkAnswers (Throw "user lookup is not needed") (Throw "") (Throw "")
             (Ok (mkSentMessage "m1")) in
  let r := sendTeamsMessage a "/teams/t1/channels/c1" "hello" (Some "chat")
             (mkClient [] []) in
  requests (snd r) =
    [mkRequest "POST" "/teams/t1/channels/c1/messages" (ChatMessage "hello")].
Proof.
  destruct (sendTeamsMessage_routes
              (mkAnswers (Throw "user lookup is not needed") (Throw "") (Throw "")
                 (Ok (mkSentMessage "m1")))
              "/teams/t1/channels/c1" "hello" (Some "chat") (mkClient [] []))
    as (response & _ & Hchannel & _).
  assert (Hsub : exists p q, "/teams/t1/channels/c1" = p ++ "/channels/" ++ q)
    by (exists "/teams/t1", "c1"; reflexivity).
  destruct (Hchannel (or_intror Hsub)) as [H _]. exact H.
Defined.

End ToolsMore.

(** * Properties of the availability tool *)

Module ServiceMore.

Import Calendar CalendarService Graph Samples CalendarFacts.
Local Open Scope string_scope.

Lemma findMeetingSlots_nil_iff (tz : Z) (schedules : list Schedule) (duration : Z)
    (startDate endDate : Date) (attendees : list string) :
  findMeetingSlots tz schedules duration startDate endDate attendees = [] <->
  ~ exists k, (0 <= k)%Z /\
      reachesTick duration startDate endDate k /\
      businessTick tz (tick startDate k) /\
      (ceilHalf (Z.of_nat (List.length attendees)) <=
       countAvailable schedules (tick startDate k) duration 0)%Z.
Proof.
  split.
  - intros Hnil (k & Hk & Hr & Hb & Hc).
    assert (Hin : In (slotAt schedules duration (tick startDate k))
                    (collectSlots tz schedules duration endDate attendees startDate))
      by (apply collectSlots_In; exists k; auto).
    unfold findMeetingSlots, slice0 in Hnil.
    pose proof (sortBy_perm compareSlots
                  (collectSlots tz schedules duration endDate attendees startDate)) as Hp.
    apply (Permutation_in _ Hp) in Hin.
    destruct (sortBy compareSlots _) as [|s l]; [contradiction | discriminate].
  - intros Hnone.
    destruct (findMeetingSlots tz schedules duration startDate endDate attendees)
      as [|s l] eqn:E; [reflexivity|]. exfalso. apply Hnone.
    assert (Hin : In s (findMeetingSlots tz schedules duration startDate endDate attendees))
      by (rewrite E; left; reflexivity).
    apply findMeetingSlots_incl, collectSlots_In in Hin.
    destruct Hin as (k & Hk & Hr & Hb & Hc & _). exists k. auto.
Qed.

Section Report.

Variable parseDate : string -> JsDate.
Variable toLocaleString : JsDate -> string.
Variable numberToString : Z -> string.
Variable tz : Z.

Lemma findMeetingSlotsBetween_nil_iff (schedules : list Schedule) (duration : Z)
    (startDate endDate : JsDate) (attendees : list string) :
  findMeetingSlotsBetween tz schedules duration startDate endDate attendees = [] <->
  ~ exists startTime endTime k,
      startDate = ValidDate startTime /\ endDate = ValidDate endTime /\
      (0 <= k)%Z /\
      reachesTick duration startTime endTime k /\
      businessTick tz (tick startTime k) /\
      (ceilHalf (Z.of_nat (List.length attendees)) <=
       countAvailable schedules (tick startTime k) duration 0)%Z.
Proof.
  unfold findMeetingSlotsBetween.
  destruct startDate as [a|]; [destruct endDate as [b|]|].
  - rewrite findMeetingSlots_nil_iff. split.
    + intros H (a' & b' & k & Ea & Eb & H').
      inversion Ea; inversion Eb; subst. apply H. exists k. exact H'.
    + intros H (k & H'). apply H. exists a, b, k. auto.
  - split; [|reflexivity]. intros _ (a' & b' & k & _ & Eb & _). discriminate.
  - split; [|reflexivity]. intros _ (a' & b' & k & Ea & _). discriminate.
Qed.

(** X18. [findAvailability] never throws and sends one request, the POST
    of the schedule query.  When the service fails the response is an error
    response.  When it answers, the response is no error, and its text is the
    advice for the case of no common availability exactly when no tick is in
    business hours on a weekday with a majority of free schedules among those
    that the loop reaches between two valid dates; otherwise it lists the
    slots that [findMeetingSlots] returns, one line each under a heading. *)
Theorem findAvailability_report (scheduleAnswer : result (list Schedule))
    (attendees : list string) (startDate endDate : string) (duration : Z) (c : Client) :
  let r := findAvailability parseDate toLocaleString numberToString tz scheduleAnswer
             attendees startDate endDate duration c in
  requests (snd r) =
    (requests c ++
     [mkRequest "POST" "/me/calendar/getSchedule"
        (ScheduleRequest attendees startDate endDate 30)])%list /\
  (forall error, scheduleAnswer = Throw error ->
     fst r = Ok (mkResponse ("Failed to check availability: " ++
                             messageOr error "Unknown error") true)) /\
  (forall schedules, scheduleAnswer = Ok schedules ->
     let slots := findMeetingSlotsBetween tz schedules duration (parseDate startDate)
                    (parseDate endDate) attendees in
     exists response,
       fst r = Ok response /\ isError response = false /\
       (text response = noAvailabilityText numberToString duration <->
        ~ exists startTime endTime k,
            parseDate startDate = ValidDate startTime /\
            parseDate endDate = ValidDate endTime /\
            (0 <= k)%Z /\
            reachesTick duration startTime endTime k /\
            businessTick tz (tick startTime k) /\
            (ceilHalf (Z.of_nat (List.length attendees)) <=
             countAvailable schedules (tick startTime k) duration 0)%Z) /\
       (slots <> [] ->
        text response =
          "Found " ++ numberToString (Z.of_nat (List.length slots)) ++
          " available time slots:" ++ nl ++
          joinLines (map (slotLine toLocaleString numberToString attendees) slots))).
Proof.
  intros r. subst r.
  unfold findAvailability, tryCatch, bind, post, sendRequest, clientLog, modify, ret.
  simpl. destruct scheduleAnswer as [schedules|error]; simpl.
  - split; [reflexivity|]. split; [intros e H; discriminate|].
    intros schedules' H. injection H as <-.
    eexists. split; [reflexivity|]. split; [reflexivity|]. simpl.
    rewrite <- findMeetingSlotsBetween_nil_iff.
    destruct (findMeetingSlotsBetween tz schedules duration (parseDate startDate)
                (parseDate endDate) attendees) as [|s l]; simpl.
    + split; [split; reflexivity | intros H; contradiction].
    + split; [|intros _; reflexivity].
      split; [|discriminate]. unfold noAvailabilityText. simpl. discriminate.
  - split; [reflexivity|]. split; [|intros s H; discriminate].
    intros e H. injection H as <-. reflexivity.
Qed.

End Report.

Lemma findAvailability_report_witness :
  let r := findAvailability (fun _ => ValidDate monday9) (fun _ => "") (fun _ => "") 0
             (Throw "") ["a"] "2024-01-08T09:00:00Z" "2024-01-08T11:00:00Z" 30
             (mkClient [] []) in
  fst r = Ok (mkResponse "Failed to check availability: Unknown error" true).
Proof.
  destruct (findAvailability_report (fun _ => ValidDate monday9) (fun _ => "")
              (fun _ => "") 0
              (Throw "") ["a"] "2024-01-08T09:00:00Z" "2024-01-08T11:00:00Z" 30
              (mkClient [] [])) as (_ & H & _).
  apply (H "" eq_refl).
Defined.

End ServiceMore.
